(** * manifest-splitter: decode, expand, validate and classify Kubernetes manifests

    A shallow embedding of [main.go].  The program reads manifest files,
    decodes every document into an [unstructured.Unstructured] object,
    optionally expands Lists, asks the API server whether each kind is
    namespaced, validates the resources and writes one file per resource into
    a directory chosen by namespace.

    Layout of the development:
    - [value], [Unstructured]: the parsed document tree, with the accessors of
      k8s.io/apimachinery that [main.go] calls;
    - [resource], [error]: the program's own data ([populateNamespacedField]
      only stores the answer of the API server in [namespaced]; the
      validators are stated for either value of the field);
    - [resourceFilename], [bucket], [gather], [writes]: naming and
      classification ([main], lines 88-135);
    - [validateResource], [validateResourceList], [validateResources],
      [validateResourceFiles]: validation, with in-place mutation modelled by
      explicit state passing;
    - [DecodeYAML], [DecodeJSON], [decodeResourceManifest]: decoding;
    - the theorems, one per claim of the specification. *)

From Stdlib Require Import ZArith DecimalString Ascii.
From Stdlib.Strings Require Import Byte.
From stdpp Require Import base strings list gmap sets.

#[local] Set Warnings "-clear-no-such-hyp".

(** ** The document tree

    [unstructured.Unstructured] wraps a [map[string]interface{}] produced by
    the JSON decoder: nested maps, slices, strings, numbers, booleans and nil.
    Objects are ordered key/value lists; [lookup_field] reads the first
    binding of a key, [set_field] overwrites it and [delete_field] removes
    every binding, so the three behave as a Go map does whether or not a key
    is repeated in the list. *)

#[local] Unset Elimination Schemes.
Inductive value :=
| VNull
| VBool (b : bool)
| VNum (n : Z)
| VStr (s : string)
| VArr (items : list value)
| VObj (fields : list (string * value)).
#[local] Set Elimination Schemes.

Abbreviation jmap := (list (string * value)).

(** A nil map and an empty map answer every read the same way; both are []. *)
Record Unstructured := mkU { Object : jmap }.

Definition emptyU : Unstructured := mkU [].

Fixpoint lookup_field (k : string) (m : jmap) : option value :=
  match m with
  | [] => None
  | (k', v) :: m' => if decide (k = k') then Some v else lookup_field k m'
  end.

Fixpoint set_field (k : string) (v : value) (m : jmap) : jmap :=
  match m with
  | [] => [(k, v)]
  | (k', v') :: m' =>
      if decide (k = k') then (k, v) :: m' else (k', v') :: set_field k v m'
  end.

Fixpoint delete_field (k : string) (m : jmap) : jmap :=
  match m with
  | [] => []
  | (k', v') :: m' =>
      if decide (k = k') then delete_field k m' else (k', v') :: delete_field k m'
  end.

(** [unstructured.NestedFieldNoCopy]: walk [fields] down through nested maps.
    [None] stands for both "not found" and "a non-map on the way", which the
    string getters below do not tell apart. *)
Fixpoint NestedFieldNoCopy (val : value) (fields : list string) : option value :=
  match fields with
  | [] => Some val
  | field :: rest =>
      match val with
      | VObj m =>
          match lookup_field field m with
          | Some v => NestedFieldNoCopy v rest
          | None => None
          end
      | _ => None
      end
  end.

(** [getNestedString]: the string at the path, "" when absent or not a string. *)
Definition getNestedString (obj : jmap) (fields : list string) : string :=
  match NestedFieldNoCopy (VObj obj) fields with
  | Some (VStr s) => s
  | _ => ""
  end.

(** [unstructured.RemoveNestedField]: delete the last field of the path inside
    the map reached by the others; nothing happens when the way is blocked. *)
Fixpoint RemoveNestedField (obj : jmap) (fields : list string) : jmap :=
  match fields with
  | [] => obj
  | [field] => delete_field field obj
  | field :: rest =>
      match lookup_field field obj with
      | Some (VObj x) => set_field field (VObj (RemoveNestedField x rest)) obj
      | _ => obj
      end
  end.

(** [unstructured.SetNestedField]: create the maps that are missing on the way
    and store the value; a non-map on the way leaves the object as it is (the
    error this returns is dropped by [setNestedField]'s caller). *)
Fixpoint SetNestedField (obj : jmap) (v : value) (fields : list string) : jmap :=
  match fields with
  | [] => obj
  | [field] => set_field field v obj
  | field :: rest =>
      match lookup_field field obj with
      | Some (VObj x) => set_field field (VObj (SetNestedField x v rest)) obj
      | Some _ => obj
      | None => set_field field (VObj (SetNestedField [] v rest)) obj
      end
  end.

Definition GetAPIVersion (u : Unstructured) : string :=
  getNestedString (Object u) ["apiVersion"].

Definition GetKind (u : Unstructured) : string :=
  getNestedString (Object u) ["kind"].

Definition GetNamespace (u : Unstructured) : string :=
  getNestedString (Object u) ["metadata"; "namespace"].

Definition GetName (u : Unstructured) : string :=
  getNestedString (Object u) ["metadata"; "name"].

Definition SetNamespace (u : Unstructured) (namespace : string) : Unstructured :=
  if decide (namespace = "")
  then mkU (RemoveNestedField (Object u) ["metadata"; "namespace"])
  else mkU (SetNestedField (Object u) (VStr namespace) ["metadata"; "namespace"]).

(** [IsList]: the object has an "items" field holding a slice. *)
Definition IsList (u : Unstructured) : bool :=
  match lookup_field "items" (Object u) with
  | Some (VArr _) => true
  | _ => false
  end.

Definition items_of (u : Unstructured) : list value :=
  match lookup_field "items" (Object u) with
  | Some (VArr items) => items
  | _ => []
  end.

(** Writing the item slice back: the children of a list are maps shared with
    the parent, so whatever a callback of [EachListItem] does to a child is
    seen through the parent afterwards. *)
Definition with_items (u : Unstructured) (items : list value) : Unstructured :=
  mkU (set_field "items" (VArr items) (Object u)).

(** ** Group, version and kind

    [schema.ParseGroupVersion] and [Unstructured.GroupVersionKind]. *)

Fixpoint count_slash (s : string) : nat :=
  match s with
  | EmptyString => 0
  | String c s' => (if decide (c = "/"%char) then 1 else 0) + count_slash s'
  end.

Fixpoint before_slash (s : string) : string :=
  match s with
  | EmptyString => EmptyString
  | String c s' => if decide (c = "/"%char) then EmptyString else String c (before_slash s')
  end.

Fixpoint after_slash (s : string) : string :=
  match s with
  | EmptyString => EmptyString
  | String c s' => if decide (c = "/"%char) then s' else after_slash s'
  end.

Record GroupVersion := mkGV { gvGroup : string; gvVersion : string }.

Definition ParseGroupVersion (gv : string) : option GroupVersion :=
  if decide (gv = "" ∨ gv = "/") then Some (mkGV "" "")
  else match count_slash gv with
       | 0 => Some (mkGV "" gv)
       | 1 => Some (mkGV (before_slash gv) (after_slash gv))
       | _ => None
       end.

Record GroupVersionKind := mkGVK { Group : string; Version : string; Kind : string }.

Definition GroupVersionKindOf (u : Unstructured) : GroupVersionKind :=
  match ParseGroupVersion (GetAPIVersion u) with
  | None => mkGVK "" "" ""
  | Some gv => mkGVK (gvGroup gv) (gvVersion gv) (GetKind u)
  end.

(** [schema.GroupKind] as a pair (group, kind), so that it can key a map. *)
Abbreviation GroupKind := (string * string)%type.

Definition GroupKindOf (gvk : GroupVersionKind) : GroupKind := (Group gvk, Kind gvk).

Definition GroupKind_String (gk : GroupKind) : string :=
  if decide (gk.1 = "") then gk.2 else gk.2 +:+ "." +:+ gk.1.

(** ** Paths and formatting

    The parts of Go's [path/filepath], [strings] and [fmt] that
    [resourceFilename] uses, for Unix paths. *)

Definition isPathSeparator (c : ascii) : bool := bool_decide (c = "/"%char).

Fixpoint drop_separators (s : string) : string :=
  match s with
  | EmptyString => EmptyString
  | String c s' => if isPathSeparator c then drop_separators s' else s
  end.

(** [filepath.Base]: the last element of the path, trailing separators
    removed; "." for the empty path and "/" for a path of separators only. *)
Definition Base (path : string) : string :=
  if decide (path = "") then "."
  else
    let last := String.rev (before_slash (drop_separators (String.rev path))) in
    if decide (last = "") then "/" else last.

(** The scan of [filepath.Ext], from the end of the path backwards: [s] is
    what is left of the reversed path and [acc] what has been passed. *)
Fixpoint ext_scan (s : string) (acc : string) : string :=
  match s with
  | EmptyString => EmptyString
  | String c s' =>
      if isPathSeparator c then EmptyString
      else if decide (c = "."%char) then String c acc
      else ext_scan s' (String c acc)
  end.

Definition Ext (path : string) : string := ext_scan (String.rev path) EmptyString.

Fixpoint strip_prefix (p s : string) : option string :=
  match p with
  | EmptyString => Some s
  | String c p' =>
      match s with
      | EmptyString => None
      | String d s' => if decide (c = d) then strip_prefix p' s' else None
      end
  end.

(** [strings.TrimSuffix]. *)
Definition TrimSuffix (s suffix : string) : string :=
  match strip_prefix (String.rev suffix) (String.rev s) with
  | Some r => String.rev r
  | None => s
  end.

(** The verb %d of [fmt.Sprintf] on an int. *)
Definition decimal (z : Z) : string := NilZero.string_of_int (Z.to_int z).

(** ** Resources *)

(** [type format string] with its two constants. *)
Inductive formatT := jsonFormat | yamlFormat.

Definition format_string (f : formatT) : string :=
  match f with jsonFormat => "json" | yamlFormat => "yaml" end.

(** [idx] never exceeds the length of the slice the resource sits in, so the
    increments of [decodeResourceManifest] cannot overflow a Go int; it is an
    unbounded integer here. *)
Record resource := mkResource {
  idx : Z;
  inputFilename : string;
  data : list byte;
  format : formatT;
  obj : Unstructured;
  namespaced : bool;
  listNamespaceName : string;
}.

Definition set_obj (r : resource) (o : Unstructured) : resource :=
  mkResource (idx r) (inputFilename r) (data r) (format r) o (namespaced r)
             (listNamespaceName r).

Definition set_listNamespaceName (r : resource) (ns : string) : resource :=
  mkResource (idx r) (inputFilename r) (data r) (format r) (obj r) (namespaced r) ns.

(** Go's [error] values.  Each constructor is one [fmt.Errorf] or library
    error of the program and carries what its message prints. *)
Inductive error :=
| EOF
| ErrExternal (msg : string)
| ErrItemNotObject
| ErrMissingNamespace (r : resource)
| ErrNonListResource
| ErrListNamespaces (file : string) (declaredNamespaces : gset string)
| ErrDuplicate (namespace name : string) (gk : string).

(** A call that returns [(T, error)]. *)
Inductive result (A : Type) :=
| Ok (a : A)
| Err (e : error).
Arguments Ok {A} a.
Arguments Err {A} e.

(** ** File names ([resourceFilename], lines 138-149) *)

Definition isNamespaceObject (u : Unstructured) : bool :=
  bool_decide (GetKind u = "Namespace") && bool_decide (GetAPIVersion u = "v1").

Definition resourceFilename (r : resource) : string :=
  if IsList (obj r) then
    let inputFileName := Base (inputFilename r) in
    let inputFileNameStripped := TrimSuffix inputFileName (Ext inputFileName) in
    GetKind (obj r) +:+ "-" +:+ decimal (idx r) +:+ "-" +:+ inputFileNameStripped
      +:+ "." +:+ format_string (format r)
  else if isNamespaceObject (obj r) then
    "namespace." +:+ format_string (format r)
  else
    GetKind (obj r) +:+ "-" +:+ GetName (obj r) +:+ "." +:+ format_string (format r).

(** ** Classification and output ([main], lines 88-135)

    The catalog [files] is a Go map from input file name to resources; a
    [range] over it visits the entries in an order the runtime picks.  It is
    an association list here, in the order of that visit, and every theorem
    about it holds for every order. *)

Abbreviation catalog := (list (string * list resource)).

(** The namespace key computed for one resource (lines 94-101). *)
Definition bucket (r : resource) : string :=
  let ns := GetNamespace (obj r) in
  let ns := if IsList (obj r) then listNamespaceName r else ns in
  let ns := if isNamespaceObject (obj r) then GetName (obj r) else ns in
  ns.

Definition gather_resource (outputs : gmap string (list resource)) (r : resource)
  : gmap string (list resource) :=
  let ns := bucket r in
  let list := default [] (outputs !! ns) in
  <[ns := list ++ [r]]> outputs.

Definition gather (files : catalog) : gmap string (list resource) :=
  foldl (λ outputs entry, foldl gather_resource outputs entry.2) ∅ files.

Definition isRepoObject (u : Unstructured) : bool :=
  bool_decide (GetKind u = "Repo")
  && bool_decide (GetAPIVersion u = "configmanagement.gke.io/v1").

Section Output.
(** [filepath.Join] and the flag [--output]. *)
Variable Join : list string → string.
Variable outputDir : string.

Definition dirname_of (ns : string) : string :=
  if decide (ns = "") then Join [outputDir; "cluster"]
  else Join [outputDir; "namespaces"; ns].

Definition dir_of (ns : string) (r : resource) : string :=
  if isRepoObject (obj r) then Join [outputDir; "system"] else dirname_of ns.

(** One [ioutil.WriteFile] call: the path and the bytes. *)
Definition write_of (ns : string) (r : resource) : string * list byte :=
  (Join [dir_of ns r; resourceFilename r], data r).

(** The writes of the second loop of [main], in the order of the visit of
    [outputs]. *)
Definition writes (outputs : gmap string (list resource)) : list (string * list byte) :=
  flat_map (λ entry, map (write_of entry.1) entry.2) (map_to_list outputs).
End Output.

(** ** Validation (lines 165-261)

    The validators take a [*resource] and change it in place: they set
    [listNamespaceName], and [SetNamespace] rewrites the object the resource
    points to.  Here every validator returns the resource as it is when the
    call returns, next to the error; the state is returned on failure too,
    since what was changed before the failure stays changed. *)

(** The copy made for one list item (lines 237-245): the fields of the list,
    around the item's own object. *)
Definition inner_of (r : resource) (child : jmap) : resource :=
  mkResource (idx r) (inputFilename r) (data r) (format r) (mkU child)
             (namespaced r) (listNamespaceName r).

Section ListItems.
(** [rec] is [validateResource], called on each item. *)
Variable rec : resource → resource * option error.
Variable r : resource.

(** [r.obj.EachListItem] with the callback of lines 235-254: the items as
    they are when the loop stops, the last value of [ns], and the error.
    [EachListItem] fails on an item that is not a map. *)
Fixpoint eachListItem_validate (items : list value)
    (declaredNamespaces : gset string) (ns : string)
  : list value * string * option error :=
  match items with
  | [] => ([], ns, None)
  | VObj child :: rest =>
      let inner := inner_of r child in
      let declaredNamespaces := {[GetNamespace (obj inner)]} ∪ declaredNamespaces in
      if bool_decide (1 < size declaredNamespaces) then
        (VObj child :: rest, ns,
         Some (ErrListNamespaces (inputFilename r) declaredNamespaces))
      else
        let ns := GetNamespace (obj inner) in
        let '(inner', err) := rec inner in
        match err with
        | Some e => (VObj (Object (obj inner')) :: rest, ns, Some e)
        | None =>
            let '(rest', ns', err') := eachListItem_validate rest declaredNamespaces ns in
            (VObj (Object (obj inner')) :: rest', ns', err')
        end
  | item :: rest => (item :: rest, ns, Some ErrItemNotObject)
  end.

(** [validateResourceList], given the validator of the items. *)
Definition validateResourceList_with : resource * option error :=
  if negb (IsList (obj r)) then (r, Some ErrNonListResource)
  else
    let '(items', ns, err) := eachListItem_validate (items_of (obj r)) ∅ "" in
    let r' := set_obj r (with_items (obj r) items') in
    match err with
    | Some e => (r', Some e)
    | None => (set_listNamespaceName r' ns, None)
    end.
End ListItems.

(** The two branches of [validateResource] for a resource that is not a list
    (lines 212-220). *)
Definition validateNonList (r : resource) : resource * option error :=
  if namespaced r && bool_decide (GetNamespace (obj r) = "") then
    (r, Some (ErrMissingNamespace r))
  else if negb (namespaced r) && negb (bool_decide (GetNamespace (obj r) = "")) then
    (set_obj r (SetNamespace (obj r) ""), None)
  else (r, None).

(** Nesting depth of a document: the recursion of [validateResource] through
    [validateResourceList] descends into an item of the object, so the depth
    of the object bounds the number of nested calls. *)
Fixpoint vdepth (v : value) : nat :=
  match v with
  | VArr items => S (foldr (λ x acc, vdepth x `max` acc) 0 items)
  | VObj fields => S (foldr (λ kv acc, vdepth kv.2 `max` acc) 0 fields)
  | _ => 0
  end.

Definition depth_of (r : resource) : nat := vdepth (VObj (Object (obj r))).

(** [validateResource] with a bound on the nested calls.  The bound is never
    reached when it is at least [depth_of r] ([validateResource_at_enough]);
    a list has depth 2 or more, so the branch for 0 is never taken then. *)
Fixpoint validateResource_at (n : nat) (r : resource) : resource * option error :=
  if IsList (obj r) then
    match n with
    | 0 => (r, None)
    | S n' => validateResourceList_with (validateResource_at n') r
    end
  else validateNonList r.

Definition validateResource (r : resource) : resource * option error :=
  validateResource_at (depth_of r) r.

Definition validateResourceList (r : resource) : resource * option error :=
  validateResourceList_with validateResource r.

(** [validateResources]: the loop over [&resources[i]], stopping at the first
    error. *)
Fixpoint validateResources (resources : list resource) : list resource * option error :=
  match resources with
  | [] => ([], None)
  | r :: rest =>
      let '(r', err) := validateResource r in
      match err with
      | Some e => (r' :: rest, Some e)
      | None =>
          let '(rest', err') := validateResources rest in
          (r' :: rest', err')
      end
  end.

(** [namespacedName] of [validateResourceFiles]: (name, namespace). *)
Abbreviation namespacedName := (string * string)%type.

Fixpoint alreadyContains (list : list namespacedName) (toFind : namespacedName) : bool :=
  match list with
  | [] => false
  | e :: list' => if decide (toFind = e) then true else alreadyContains list' toFind
  end.

Definition gk_of (r : resource) : GroupKind := GroupKindOf (GroupVersionKindOf (obj r)).

Definition nn_of (r : resource) : namespacedName :=
  (GetName (obj r), GetNamespace (obj r)).

(** The inner loop of [validateResourceFiles] (lines 182-190).  It reads
    [existingResources] and never writes to it. *)
Fixpoint findDuplicate (existingResources : gmap GroupKind (list namespacedName))
    (resources : list resource) : option error :=
  match resources with
  | [] => None
  | resource :: rest =>
      let gk := gk_of resource in
      let existingNamespacedNames := default [] (existingResources !! gk) in
      let nn := nn_of resource in
      if alreadyContains existingNamespacedNames nn then
        Some (ErrDuplicate (GetNamespace (obj resource)) (GetName (obj resource))
                           (GroupKind_String gk))
      else findDuplicate existingResources rest
  end.

(** The outer loop (lines 177-191), over the files in the order of the visit.
    [existingResources] is the map made at line 176; no statement of the
    function stores into it, so every iteration sees it as it was made. *)
Fixpoint validateFiles (existingResources : gmap GroupKind (list namespacedName))
    (files : catalog) : catalog * option error :=
  match files with
  | [] => ([], None)
  | (name, resources) :: rest =>
      let '(resources', err) := validateResources resources in
      match err with
      | Some e => ((name, resources') :: rest, Some e)
      | None =>
          match findDuplicate existingResources resources' with
          | Some e => ((name, resources') :: rest, Some e)
          | None =>
              let '(rest', err') := validateFiles existingResources rest in
              ((name, resources') :: rest', err')
          end
      end
  end.

Definition validateResourceFiles (files : catalog) : catalog * option error :=
  validateFiles ∅ files.

(** *** Validation with a log

    The same loops, each one also recording when it handles which resource:
    [EvValidate f i] when [validateResources] calls [validateResource] on
    resource [i] of file [f], and [EvCheck f i r] when the duplicate test of
    [validateResourceFiles] reads resource [i] of file [f], found in state
    [r].  The log is not part of the program; [validateFiles_log_erase] shows
    that the logging loops compute what the plain ones do. *)






(** ** Decoding (lines 287-396)

    The [io.Reader] of an input file, as [decodeResourceManifest] holds it
    after [utilyaml.GuessJSONStream]: [isJSON] is the verdict of the sniff and
    [pending] is what the stream still delivers, chunk by chunk.  For a YAML
    stream the chunks are the documents that successive
    [utilyaml.YAMLReader.Read] calls cut at the "---" lines; a JSON stream is
    drained by one [ioutil.ReadAll], whatever its chunks.  [Fail] is a read
    that fails with an error other than [io.EOF]. *)

Inductive chunk :=
| Data (bytes : list byte)
| Fail (msg : string).

Record reader := mkReader { isJSON : bool; pending : list chunk }.

Definition is_EOF (err : option error) : bool :=
  match err with Some EOF => true | _ => false end.

(** [yamlReader.Read]: the next document, or [io.EOF] with no bytes. *)
Definition YAMLReader_Read (r : reader) : reader * (list byte * option error) :=
  match pending r with
  | [] => (r, ([], Some EOF))
  | Data bytes :: rest => (mkReader (isJSON r) rest, (bytes, None))
  | Fail msg :: rest => (mkReader (isJSON r) rest, ([], Some (ErrExternal msg)))
  end.

Fixpoint drain (chunks : list chunk) : list byte * option error :=
  match chunks with
  | [] => ([], None)
  | Data bytes :: rest => let '(more, err) := drain rest in (bytes ++ more, err)
  | Fail msg :: _ => ([], Some (ErrExternal msg))
  end.

(** [ioutil.ReadAll]: everything up to the end of the stream. *)
Definition ReadAll (r : reader) : reader * (list byte * option error) :=
  (mkReader (isJSON r) [], drain (pending r)).

(** [type decoder func(r io.Reader, into interface{}) ([]byte, error)]: the
    reader and the object after the call, then the two results. *)
Definition decoder : Type :=
  reader → Unstructured → reader * Unstructured * (list byte * option error).

(** [type encoder func(interface{}) ([]byte, error)]. *)
Definition encoder : Type := Unstructured → result (list byte).

Section Decode.
(** The parsers and printers of sigs.k8s.io/yaml and encoding/json.
    Unmarshalling gives the content of the object it fills.  What a parse
    that fails has already stored in the object is not kept: both decoders
    are only called by [decodeResourceManifest], which drops the object on
    every error. *)
Variable yaml_Unmarshal json_Unmarshal : list byte → result Unstructured.
Variable yaml_Marshal json_Marshal : Unstructured → result (list byte).
(** The flag [--expand-lists]. *)
Variable expandLists : bool.

Definition DecodeYAML : decoder := λ r into,
  let '(r, (bytes, err)) := YAMLReader_Read r in
  if bool_decide (err ≠ None) && negb (is_EOF err) then (r, into, ([], err))
  else if bool_decide (length bytes ≠ 0) then
    match yaml_Unmarshal bytes with
    | Err e => (r, into, ([], Some e))
    | Ok u => (r, u, (bytes, err))
    end
  else (r, into, (bytes, err)).

Definition EncodeYAML : encoder := yaml_Marshal.

Definition DecodeJSON : decoder := λ r into,
  let '(r, (data, err)) := ReadAll r in
  match err with
  | Some e => (r, into, ([], Some e))
  | None =>
      if bool_decide (length data = 0) then (r, into, ([], Some EOF))
      else
        match json_Unmarshal data with
        | Err e => (r, into, (data, Some e))
        | Ok u => (r, u, (data, None))
        end
  end.

Definition EncodeJSON : encoder := json_Marshal.

Section Loop.
Variable input : string.
Variable decode : decoder.
Variable encode : encoder.
Variable format : formatT.

(** [u.EachListItem] with the callback of lines 324-339: the resources
    and the index when the loop stops, and the error it returns. *)
Fixpoint eachListItem_expand (items : list value) (idx : Z) (resources : list resource)
  : list resource * Z * option error :=
  match items with
  | [] => (resources, idx, None)
  | VObj child :: rest =>
      let u := mkU child in
      match encode u with
      | Err e => (resources, idx, Some e)
      | Ok data =>
          eachListItem_expand rest (idx + 1)
            (resources ++ [mkResource idx input data format u false ""])
      end
  | _ :: _ => (resources, idx, Some ErrItemNotObject)
  end.

(** The [for] loop of lines 309-351.  [fuel] bounds the iterations; [None]
    is a bound reached.  Line 324 drops what [EachListItem] returns. *)
Fixpoint decodeLoop (fuel : nat) (r : reader) (idx : Z) (resources : list resource)
  : option (list resource * option error) :=
  match fuel with
  | 0 => None
  | S fuel' =>
      let '(r, u, (bytes, err)) := decode r emptyU in
      if is_EOF err then Some (resources, None)
      else
        match err with
        | Some e => Some ([], Some e)
        | None =>
            if bool_decide (GetAPIVersion u = "") || bool_decide (GetKind u = "")
            then decodeLoop fuel' r idx resources
            else if expandLists && IsList u then
              let '(resources, idx, _) :=
                eachListItem_expand (items_of u) idx resources in
              decodeLoop fuel' r idx resources
            else
              decodeLoop fuel' r (idx + 1)
                (resources ++ [mkResource idx input bytes format u false ""])
        end
  end.
End Loop.

(** Every call of a decoder takes a chunk off the stream or reports the end,
    so one iteration more than there are chunks is enough
    ([decodeResourceManifest_total]). *)
Definition decodeResourceManifest (input : string) (r : reader)
  : option (list resource * option error) :=
  if negb (isJSON r) then
    decodeLoop input DecodeYAML EncodeYAML yamlFormat (S (length (pending r))) r 0 []
  else
    decodeLoop input DecodeJSON EncodeJSON jsonFormat (S (length (pending r))) r 0 [].
End Decode.

(** ** Vocabulary of the statements about lists *)

(** The namespace an item declares, as the callback of
    [validateResourceList] reads it. *)
Definition item_namespace (item : value) : string :=
  match item with
  | VObj child => GetNamespace (mkU child)
  | _ => ""
  end.

(** An item that [validateResourceList] accepts in a list of namespace [n]:
    a map that declares [n] and passes [validateResource] as a copy of the
    list [r] around it. *)
Definition item_accepted (r : resource) (n : string) (item : value) : Prop :=
  ∃ child, item = VObj child ∧ GetNamespace (mkU child) = n
           ∧ (validateResource (inner_of r child)).2 = None.



(** *** Vocabulary of the statements about decoding

    What sections 4.1 and 4.2 of the specification say a YAML stream gives,
    written without the loop: the documents of the stream that are not empty
    and carry apiVersion and kind, each as its (rawBytes, parsedForm) pair;
    then, for a list under expand-lists, the items in its place; then the
    indices, counted from 0 through the file. *)

Section DecodeSpec.
Variable unmarshal : list byte → result Unstructured.
Variable encode : encoder.
Variable expandLists : bool.

Definition document_pair (bytes : list byte) : option (list byte * Unstructured) :=
  if bool_decide (length bytes = 0) then None
  else
    match unmarshal bytes with
    | Ok u =>
        if bool_decide (GetAPIVersion u = "") || bool_decide (GetKind u = "")
        then None else Some (bytes, u)
    | Err _ => None
    end.

(** The items of a list up to the first one that is not a map or that the
    encoder refuses, each with its own encoding. *)
Fixpoint encoded_items (items : list value) : list (list byte * Unstructured) :=
  match items with
  | VObj child :: rest =>
      match encode (mkU child) with
      | Ok data => (data, mkU child) :: encoded_items rest
      | Err _ => []
      end
  | _ => []
  end.

Definition expand (doc : list byte * Unstructured) : list (list byte * Unstructured) :=
  if expandLists && IsList doc.2 then encoded_items (items_of doc.2) else [doc].

Fixpoint number (input : string) (format : formatT) (idx : Z)
    (docs : list (list byte * Unstructured)) : list resource :=
  match docs with
  | [] => []
  | doc :: rest =>
      mkResource idx input doc.1 format doc.2 false "" :: number input format (idx + 1) rest
  end.
End DecodeSpec.

(** A call of a decoder reports the end of the stream or leaves it shorter. *)
Definition makes_progress (decode : decoder) : Prop :=
  ∀ r into r' u bytes err,
    decode r into = (r', u, (bytes, err)) →
    is_EOF err = true ∨ length (pending r') < length (pending r).

(** A stream of YAML documents, none of which fails to be read. *)
Definition yaml_stream (docs : list (list byte)) : reader := mkReader false (Data <$> docs).

(** The name the specification gives to the file of a list: kind, index and
    the base name of the input file without its extension. *)
Definition indexed_filename (r : resource) : string :=
  GetKind (obj r) +:+ "-" +:+ decimal (idx r) +:+ "-"
    +:+ TrimSuffix (Base (inputFilename r)) (Ext (Base (inputFilename r)))
    +:+ "." +:+ format_string (format r).

(** The name of a resource that is not a list. *)
Definition named_filename (r : resource) : string :=
  if isNamespaceObject (obj r) then "namespace." +:+ format_string (format r)
  else GetKind (obj r) +:+ "-" +:+ GetName (obj r) +:+ "." +:+ format_string (format r).

(** ** Sample inputs *)

Definition manifest (apiVersion kind name namespace : string) : jmap :=
  [("apiVersion", VStr apiVersion); ("kind", VStr kind);
   ("metadata", VObj [("name", VStr name); ("namespace", VStr namespace)])].

Definition manifest_no_namespace (apiVersion kind name : string) : jmap :=
  [("apiVersion", VStr apiVersion); ("kind", VStr kind);
   ("metadata", VObj [("name", VStr name)])].

Definition list_manifest (items : list value) : jmap :=
  [("apiVersion", VStr "v1"); ("kind", VStr "List"); ("items", VArr items)].

Definition sample (file : string) (m : jmap) (isNamespaced : bool) : resource :=
  mkResource 0 file [] yamlFormat (mkU m) isNamespaced "".

(** A namespace-scoped list whose only item declares no namespace. *)
Definition list_missing_namespace : resource :=
  sample "f.yaml" (list_manifest [VObj (manifest_no_namespace "v1" "ConfigMap" "a")]) true.

(** A list of two items that declare the namespaces "a" and "b". *)
Definition list_two_namespaces : resource :=
  sample "f.yaml"
    (list_manifest [VObj (manifest "v1" "ConfigMap" "a" "a");
                    VObj (manifest "v1" "ConfigMap" "b" "b")]) true.


(** A list that is not namespace-scoped, with one item that is itself a
    list and declares the namespace "x". *)
Definition list_of_list : resource :=
  sample "f.yaml"
    (list_manifest
       [VObj [("apiVersion", VStr "v1"); ("kind", VStr "List");
              ("metadata", VObj [("namespace", VStr "x")]);
              ("items", VArr [])]]) false.

(** A list that is not namespace-scoped, with two ConfigMaps in "x". *)
Definition list_in_x : resource :=
  sample "f.yaml"
    (list_manifest [VObj (manifest "v1" "ConfigMap" "a" "x");
                    VObj (manifest "v1" "ConfigMap" "b" "x")]) false.


(** The Deployment "foo" of namespace "ns1", read from [file]. *)
Definition deployment_foo (file : string) : resource :=
  sample file (manifest "apps/v1" "Deployment" "foo" "ns1") true.

(** Two input files that each hold the Deployment ns1/foo. *)
Definition duplicate_across_files : catalog :=
  [("a.yaml", [deployment_foo "a.yaml"]); ("b.yaml", [deployment_foo "b.yaml"])].

(** One input file that holds it twice. *)
Definition duplicate_in_file : catalog :=
  [("a.yaml", [deployment_foo "a.yaml"; deployment_foo "a.yaml"])].

(** A ConfigMap in a.yaml; in b.yaml a ClusterRole, which is not
    namespace-scoped and declares a namespace that validation clears. *)
Definition configmap_cfg : resource :=
  sample "a.yaml" (manifest "v1" "ConfigMap" "cfg" "ns1") true.

Definition clusterrole_cr : resource :=
  sample "b.yaml" (manifest "rbac.authorization.k8s.io/v1" "ClusterRole" "cr" "ns1") false.

Definition two_files : catalog :=
  [("a.yaml", [configmap_cfg]); ("b.yaml", [clusterrole_cr])].



(** A v1 Namespace "team-a" that declares another namespace, and the
    bootstrap Repo object. *)
Definition namespace_team_a : resource :=
  sample "a.yaml" (manifest "v1" "Namespace" "team-a" "other") false.

Definition repo_object : resource :=
  sample "a.yaml" (manifest "configmanagement.gke.io/v1" "Repo" "repo" "ns1") true.


(** The content of b.json: a v1 List of three ConfigMaps of namespace "ns2". *)
Definition list_b : Unstructured :=
  mkU (list_manifest [VObj (manifest "v1" "ConfigMap" "cm0" "ns2");
                      VObj (manifest "v1" "ConfigMap" "cm1" "ns2");
                      VObj (manifest "v1" "ConfigMap" "cm2" "ns2")]).

Definition reader_b : reader :=
  mkReader true [Data (String.list_byte_of_string "{...}")].

(** Stand-ins for the parser and the printer: the parser reads any input as
    [u]; the printer prints every object as "{}", and [marshal_except]
    refuses the object named [name]. *)
Definition unmarshal_as (u : Unstructured) : list byte → result Unstructured :=
  λ _, Ok u.

Definition marshal_any : encoder := λ _, Ok (String.list_byte_of_string "{}").

Definition marshal_except (name : string) : encoder :=
  λ u, if bool_decide (GetName u = name) then Err (ErrExternal "json: unsupported value")
       else Ok (String.list_byte_of_string "{}").


(** A stand-in for the YAML parser that knows the documents of a table and
    refuses everything else. *)
Definition unmarshal_table (table : list (string * Unstructured))
  : list byte → result Unstructured :=
  λ bytes,
    match list_find (λ entry, entry.1 = String.string_of_list_byte bytes) table with
    | Some (_, entry) => Ok entry.2
    | None => Err (ErrExternal "yaml: cannot unmarshal")
    end.

(** a.yaml: a ConfigMap, an empty document, a comment, and a ClusterRole. *)
Definition table_a : list (string * Unstructured) :=
  [("kind: ConfigMap", mkU (manifest "v1" "ConfigMap" "cfg" "ns1"));
   ("# comment", emptyU);
   ("kind: ClusterRole",
    mkU (manifest_no_namespace "rbac.authorization.k8s.io/v1" "ClusterRole" "cr"))].

Definition docs_a : list (list byte) :=
  [String.list_byte_of_string "kind: ConfigMap"; [];
   String.list_byte_of_string "# comment";
   String.list_byte_of_string "kind: ClusterRole"].


(** ** Discovery ([populateNamespacedField], lines 151-163) *)

Definition set_namespaced (r : resource) (b : bool) : resource :=
  mkResource (idx r) (inputFilename r) (data r) (format r) (obj r) b
             (listNamespaceName r).

Section Discovery.
(** [inspector.IsNamespaced], the lookup in the discovery data of the API
    server. *)
Variable IsNamespaced : GroupVersionKind → result bool.

(** The inner loop (lines 153-160): the slice as it is when the loop stops,
    and the error of the lookup that failed. *)
Fixpoint populateResources (resources : list resource) : list resource * option error :=
  match resources with
  | [] => ([], None)
  | resource :: rest =>
      let gvk := GroupVersionKindOf (obj resource) in
      match IsNamespaced gvk with
      | Err err => (resource :: rest, Some err)
      | Ok isNamespaced =>
          let '(rest', err') := populateResources rest in
          (set_namespaced resource isNamespaced :: rest', err')
      end
  end.

(** The outer loop, over the files in the order of the visit.  The error of
    line 157 prints the key of the file and the error of the lookup; it is
    the pair of the two here. *)
Fixpoint populateNamespacedField (files : catalog) : catalog * option (string * error) :=
  match files with
  | [] => ([], None)
  | (inputFilename, resources) :: rest =>
      let '(resources', err) := populateResources resources in
      match err with
      | Some e => ((inputFilename, resources') :: rest, Some (inputFilename, e))
      | None =>
          let '(rest', err') := populateNamespacedField rest in
          ((inputFilename, resources') :: rest', err')
      end
  end.
End Discovery.

(** *** Vocabulary of the statements about what validation keeps *)

(** The fields of a resource that are not the object nor the namespace of a
    list. *)
Definition same_fields (r r' : resource) : Prop :=
  idx r' = idx r ∧ inputFilename r' = inputFilename r ∧ data r' = data r
  ∧ format r' = format r ∧ namespaced r' = namespaced r.

(** What identifies an object, and whether it is a list. *)
Definition same_identity (u u' : Unstructured) : Prop :=
  GetKind u' = GetKind u ∧ GetAPIVersion u' = GetAPIVersion u
  ∧ GetName u' = GetName u ∧ IsList u' = IsList u.

(** The errors of the local validation. *)
Definition validation_error (e : error) : Prop :=
  match e with
  | ErrMissingNamespace _ | ErrListNamespaces _ _ | ErrItemNotObject => True
  | _ => False
  end.


(** A stand-in for the discovery data: ClusterRole and Namespace are
    cluster-scoped, "Widget" is unknown to the server, every other kind is
    namespace-scoped. *)
Definition sample_IsNamespaced (gvk : GroupVersionKind) : result bool :=
  if bool_decide (Kind gvk = "Widget") then Err (ErrExternal "no matches for kind")
  else Ok (negb (bool_decide (Kind gvk = "ClusterRole")
                 || bool_decide (Kind gvk = "Namespace"))).


(** *** Vocabulary of the statements about decoded resources *)

(** A resource as [decodeResourceManifest] makes it: the given index, the
    input file, the format of the stream, and the two fields that later
    phases fill still at their zero values. *)
Definition fresh_resource (input : string) (format0 : formatT) (i : Z) (r : resource) : Prop :=
  idx r = i ∧ inputFilename r = input ∧ format r = format0
  ∧ namespaced r = false ∧ listNamespaceName r = "".

(** Resources numbered from [i] on, one after the other. *)
Definition numbered_from (input : string) (format0 : formatT) (i : Z)
    (resources : list resource) : Prop :=
  ∀ k r, resources !! k = Some r → fresh_resource input format0 (i + Z.of_nat k) r.

Definition has_type_meta (r : resource) : Prop :=
  GetAPIVersion (obj r) ≠ "" ∧ GetKind (obj r) ≠ "".


(** ** Reading the inputs ([main], lines 60-78) *)

(** [log.Fatalf] of the first loop of [main]: the input that stopped the run
    and the error printed. *)
Inductive fatal :=
| FailedToRead (input : string) (e : error)
| FailedToDecode (input : string) (e : error).

Section Inputs.
(** [os.Open]: the stream of the file at a path, or the error of opening. *)
Variable os_Open : string → result reader.
Variable yaml_Unmarshal json_Unmarshal : list byte → result Unstructured.
Variable yaml_Marshal json_Marshal : Unstructured → result (list byte).
Variable expandLists : bool.

(** The loop over [flag.Args()], from the map [files] built so far.  [None]
    is the bound of [decodeLoop] reached, which never happens. *)
Fixpoint readInputs (inputs : list string) (files : gmap string (list resource))
  : option (gmap string (list resource) + fatal) :=
  match inputs with
  | [] => Some (inl files)
  | input :: rest =>
      match os_Open input with
      | Err e => Some (inr (FailedToRead input e))
      | Ok r =>
          match decodeResourceManifest yaml_Unmarshal json_Unmarshal yaml_Marshal
                  json_Marshal expandLists input r with
          | None => None
          | Some (_, Some e) => Some (inr (FailedToDecode input e))
          | Some (resources, None) => readInputs rest (<[input := resources]> files)
          end
      end
  end.
End Inputs.





(** * Properties *)

(** ** Maps *)

Lemma lookup_set_field_eq k v m : lookup_field k (set_field k v m) = Some v.
Proof.
  induction m as [|[k' v'] m IH]; simpl.
  - by rewrite decide_True.
  - destruct (decide (k = k')) as [->|Hne]; simpl.
    + by rewrite decide_True.
    + by rewrite decide_False.
Qed.

Lemma lookup_set_field_ne k k' v m :
  k ≠ k' → lookup_field k' (set_field k v m) = lookup_field k' m.
Proof.
  intros Hne. induction m as [|[k0 v0] m IH]; simpl.
  - by rewrite decide_False.
  - destruct (decide (k = k0)) as [->|Hk]; simpl.
    + by rewrite !decide_False.
    + destruct (decide (k' = k0)); [done | apply IH].
Qed.

Lemma lookup_delete_field_eq k m : lookup_field k (delete_field k m) = None.
Proof.
  induction m as [|[k' v'] m IH]; simpl; [done|].
  destruct (decide (k = k')); simpl; [done|]. by rewrite decide_False.
Qed.

Lemma lookup_delete_field_ne k k' m :
  k ≠ k' → lookup_field k' (delete_field k m) = lookup_field k' m.
Proof.
  intros Hne. induction m as [|[k0 v0] m IH]; simpl; [done|].
  destruct (decide (k = k0)) as [->|Hk]; simpl.
  - by rewrite decide_False.
  - destruct (decide (k' = k0)); [done | apply IH].
Qed.

Lemma set_field_same k v m : lookup_field k m = Some v → set_field k v m = m.
Proof.
  induction m as [|[k' v'] m IH]; simpl; [done|].
  destruct (decide (k = k')) as [->|Hne]; intros H.
  - by simplify_eq.
  - by rewrite IH.
Qed.

(** ** The accessors after [SetNamespace] and after an update of the items *)

Lemma GetNamespace_cleared u : GetNamespace (SetNamespace u "") = "".
Proof.
  unfold GetNamespace, SetNamespace, getNestedString. simpl.
  destruct (lookup_field "metadata" (Object u)) as [[| | | | |m]|] eqn:Hm;
    rewrite ?Hm; try done.
  by rewrite lookup_set_field_eq, lookup_delete_field_eq.
Qed.

Lemma top_field_cleared k u :
  k ≠ "metadata" →
  lookup_field k (Object (SetNamespace u "")) = lookup_field k (Object u).
Proof.
  intros Hk. unfold SetNamespace. simpl.
  destruct (lookup_field "metadata" (Object u)) as [[| | | | |m]|]; try done.
  by rewrite lookup_set_field_ne.
Qed.

Lemma IsList_cleared u : IsList (SetNamespace u "") = IsList u.
Proof. unfold IsList. by rewrite top_field_cleared. Qed.

Lemma GetKind_cleared u : GetKind (SetNamespace u "") = GetKind u.
Proof.
  unfold GetKind, getNestedString, NestedFieldNoCopy. by rewrite top_field_cleared.
Qed.

Lemma GetAPIVersion_cleared u : GetAPIVersion (SetNamespace u "") = GetAPIVersion u.
Proof.
  unfold GetAPIVersion, getNestedString, NestedFieldNoCopy.
  by rewrite top_field_cleared.
Qed.

Lemma GetName_cleared u : GetName (SetNamespace u "") = GetName u.
Proof.
  unfold GetName, SetNamespace, getNestedString. simpl.
  destruct (lookup_field "metadata" (Object u)) as [[| | | | |m]|] eqn:Hm;
    rewrite ?Hm; try done.
  by rewrite lookup_set_field_eq, lookup_delete_field_ne.
Qed.

Lemma top_field_with_items k u items :
  k ≠ "items" →
  lookup_field k (Object (with_items u items)) = lookup_field k (Object u).
Proof. intros Hk. unfold with_items. simpl. by rewrite lookup_set_field_ne. Qed.

Lemma GetNamespace_with_items u items : GetNamespace (with_items u items) = GetNamespace u.
Proof. unfold GetNamespace, getNestedString. simpl. by rewrite lookup_set_field_ne. Qed.

Lemma GetName_with_items u items : GetName (with_items u items) = GetName u.
Proof. unfold GetName, getNestedString. simpl. by rewrite lookup_set_field_ne. Qed.

Lemma GetKind_with_items u items : GetKind (with_items u items) = GetKind u.
Proof. unfold GetKind, getNestedString. simpl. by rewrite lookup_set_field_ne. Qed.

Lemma GetAPIVersion_with_items u items :
  GetAPIVersion (with_items u items) = GetAPIVersion u.
Proof. unfold GetAPIVersion, getNestedString. simpl. by rewrite lookup_set_field_ne. Qed.

Lemma IsList_with_items u items : IsList (with_items u items) = true.
Proof. unfold IsList, with_items. simpl. by rewrite lookup_set_field_eq. Qed.

Lemma items_of_with_items u items : items_of (with_items u items) = items.
Proof. unfold items_of, with_items. simpl. by rewrite lookup_set_field_eq. Qed.

Lemma with_items_same u : IsList u = true → with_items u (items_of u) = u.
Proof.
  destruct u as [m]. unfold IsList, items_of, with_items. simpl.
  destruct (lookup_field "items" m) as [[| | | |items|]|] eqn:Hm; try done.
  intros _. by rewrite set_field_same.
Qed.

(** ** The bound of [validateResource_at] is never reached *)

Lemma vdepth_field k m v : lookup_field k m = Some v → vdepth v < vdepth (VObj m).
Proof.
  simpl. induction m as [|[k' v'] m IH]; simpl; [done|].
  destruct (decide (k = k')); intros H.
  - simplify_eq. lia.
  - specialize (IH H). lia.
Qed.

Lemma vdepth_elem x items : x ∈ items → vdepth x < vdepth (VArr items).
Proof.
  simpl. induction 1 as [x l|x y l _ IH]; simpl; lia.
Qed.

Lemma items_of_lookup u : IsList u = true → lookup_field "items" (Object u) = Some (VArr (items_of u)).
Proof.
  unfold IsList, items_of.
  by destruct (lookup_field "items" (Object u)) as [[| | | | |]|].
Qed.

Lemma depth_of_item r child :
  IsList (obj r) = true → VObj child ∈ items_of (obj r) →
  S (depth_of (inner_of r child)) < depth_of r.
Proof.
  intros Hl Hin. unfold depth_of. cbn [inner_of obj Object].
  pose proof (vdepth_field _ _ _ (items_of_lookup _ Hl)).
  pose proof (vdepth_elem _ _ Hin). lia.
Qed.

Lemma eachListItem_validate_ext rec1 rec2 r items declared ns :
  (∀ child, VObj child ∈ items → rec1 (inner_of r child) = rec2 (inner_of r child)) →
  eachListItem_validate rec1 r items declared ns
  = eachListItem_validate rec2 r items declared ns.
Proof.
  revert declared ns. induction items as [|item rest IH]; intros declared ns Hext; [done|].
  destruct item as [| | | | |child]; try done.
  cbn [eachListItem_validate]. case_bool_decide; [done|].
  rewrite <- (Hext child) by apply list_elem_of_here.
  destruct (rec1 (inner_of r child)) as [inner' [e|]]; [done|].
  rewrite IH; [done|]. intros c Hc. apply Hext. by apply list_elem_of_further.
Qed.

Lemma validateResource_at_irrel n m r :
  depth_of r ≤ n → depth_of r ≤ m →
  validateResource_at n r = validateResource_at m r.
Proof.
  revert m r. induction n as [|n IH]; intros m r Hn Hm.
  - destruct m as [|m]; [done|].
    simpl. destruct (IsList (obj r)) eqn:Hl; [|done].
    pose proof (vdepth_field _ _ _ (items_of_lookup _ Hl)).
    unfold depth_of in Hn. lia.
  - destruct m as [|m].
    + simpl. destruct (IsList (obj r)) eqn:Hl; [|done].
      pose proof (vdepth_field _ _ _ (items_of_lookup _ Hl)).
      unfold depth_of in Hm. lia.
    + simpl. destruct (IsList (obj r)) eqn:Hl; [|done].
      unfold validateResourceList_with. rewrite Hl. simpl.
      rewrite (eachListItem_validate_ext _ (validateResource_at m)); [done|].
      intros child Hin. pose proof (depth_of_item r child Hl Hin).
      apply IH; lia.
Qed.

Lemma validateResource_at_enough n r :
  depth_of r ≤ n → validateResource_at n r = validateResource r.
Proof. intros Hn. unfold validateResource. by apply validateResource_at_irrel. Qed.

(** [validateResource] as the source writes it: a list goes to
    [validateResourceList], which calls [validateResource] on the items. *)
Lemma validateResource_eq r :
  validateResource r
  = if IsList (obj r) then validateResourceList r else validateNonList r.
Proof.
  unfold validateResource at 1.
  destruct (IsList (obj r)) eqn:Hl.
  - pose proof (vdepth_field _ _ _ (items_of_lookup _ Hl)) as Hd.
    destruct (depth_of r) as [|n] eqn:Hn; [unfold depth_of in Hn; lia|].
    simpl. rewrite Hl. unfold validateResourceList, validateResourceList_with.
    rewrite Hl. simpl.
    rewrite (eachListItem_validate_ext _ validateResource); [done|].
    intros child Hin. pose proof (depth_of_item r child Hl Hin).
    apply validateResource_at_enough. lia.
  - destruct (depth_of r); simpl; by rewrite Hl.
Qed.

Lemma validateResource_nonlist r :
  IsList (obj r) = false → validateResource r = validateNonList r.
Proof. intros Hl. by rewrite validateResource_eq, Hl. Qed.

Lemma validateResource_list r :
  IsList (obj r) = true → validateResource r = validateResourceList r.
Proof. intros Hl. by rewrite validateResource_eq, Hl. Qed.

(** ** Validation of one resource that is not a list *)

(** C6. A resource that is not a list: when it is namespace-scoped and its
    metadata.namespace is empty, [validateResource] returns the error that
    names the resource and leaves it untouched; when it is not
    namespace-scoped and its metadata.namespace is not empty,
    [validateResource] succeeds and the resource it leaves has an empty
    metadata.namespace and is otherwise the one it was given (same kind,
    apiVersion and name, same fields outside the object). *)
Theorem validateResource_namespace_rules (r : resource) :
  IsList (obj r) = false →
  (namespaced r = true → GetNamespace (obj r) = "" →
     validateResource r = (r, Some (ErrMissingNamespace r)))
  ∧ (namespaced r = false → GetNamespace (obj r) ≠ "" →
     ∃ r', validateResource r = (r', None)
           ∧ GetNamespace (obj r') = ""
           ∧ r' = set_obj r (SetNamespace (obj r) "")
           ∧ GetKind (obj r') = GetKind (obj r)
           ∧ GetAPIVersion (obj r') = GetAPIVersion (obj r)
           ∧ GetName (obj r') = GetName (obj r)).
Proof.
  intros Hl. rewrite validateResource_nonlist by done. unfold validateNonList.
  split.
  - intros -> ->. done.
  - intros -> Hns. simpl. rewrite bool_decide_false by done. simpl.
    eexists. split; [done|]. simpl.
    by rewrite GetNamespace_cleared, GetKind_cleared, GetAPIVersion_cleared,
      GetName_cleared.
Qed.

Lemma validateResource_namespace_rules_witness :
  validateResource (sample "a.yaml" (manifest_no_namespace "v1" "ConfigMap" "cfg") true)
  = (sample "a.yaml" (manifest_no_namespace "v1" "ConfigMap" "cfg") true,
     Some (ErrMissingNamespace
             (sample "a.yaml" (manifest_no_namespace "v1" "ConfigMap" "cfg") true)))
  ∧ ∃ r', validateResource
            (sample "a.yaml" (manifest "rbac.authorization.k8s.io/v1" "ClusterRole" "cr" "ns1") false)
          = (r', None) ∧ GetNamespace (obj r') = "".
Proof.
  split.
  - apply (validateResource_namespace_rules
             (sample "a.yaml" (manifest_no_namespace "v1" "ConfigMap" "cfg") true));
      reflexivity.
  - destruct (validateResource_namespace_rules
                (sample "a.yaml"
                   (manifest "rbac.authorization.k8s.io/v1" "ClusterRole" "cr" "ns1") false)
                eq_refl) as [_ H].
    destruct (H eq_refl ltac:(vm_compute; discriminate)) as (r' & H1 & H2 & _).
    exists r'. split; assumption.
Defined.

(** C9. For a resource that is neither a list nor namespace-scoped, a second
    [validateResource] on what the first one left returns what the first one
    returned, and on a resource whose namespace is already empty
    [validateResource] changes nothing and succeeds. *)
Theorem validateResource_idempotent (r : resource) :
  IsList (obj r) = false → namespaced r = false →
  validateResource (validateResource r).1 = validateResource r
  ∧ (GetNamespace (obj r) = "" → validateResource r = (r, None)).
Proof.
  intros Hl Hn. rewrite (validateResource_nonlist r) by done.
  assert (validateNonList r
          = if bool_decide (GetNamespace (obj r) = "") then (r, None)
            else (set_obj r (SetNamespace (obj r) ""), None)) as ->.
  { unfold validateNonList. rewrite Hn. simpl. by case_bool_decide. }
  split.
  - case_bool_decide as Hns; simpl.
    + rewrite validateResource_nonlist by done. unfold validateNonList.
      rewrite Hn. simpl. by rewrite bool_decide_true.
    + rewrite validateResource_nonlist by (simpl; by rewrite IsList_cleared).
      unfold validateNonList. simpl. rewrite Hn, GetNamespace_cleared. done.
  - intros Hns. by rewrite bool_decide_true.
Qed.

Lemma validateResource_idempotent_witness :
  validateResource
    (validateResource (sample "a.yaml" (manifest "v1" "Namespace" "team-a" "other") false)).1
  = validateResource (sample "a.yaml" (manifest "v1" "Namespace" "team-a" "other") false).
Proof.
  apply (validateResource_idempotent
           (sample "a.yaml" (manifest "v1" "Namespace" "team-a" "other") false));
    reflexivity.
Defined.

(** ** Validation of a list *)

Lemma size_le_1_iff (X : gset string) :
  size X ≤ 1 ↔ ∀ x y, x ∈ X → y ∈ X → x = y.
Proof.
  split.
  - intros Hs x y Hx Hy.
    destruct (decide (size X = 0)) as [H0|H0].
    + apply size_empty_inv in H0. set_solver.
    + apply (size_singleton_inv X); [lia|done..].
  - intros Hall. destruct (decide (size X = 0)) as [H0|H0]; [lia|].
    destruct (size_pos_elem_of X) as [x Hx]; [lia|].
    rewrite <- (size_singleton (C := gset string) x).
    apply subseteq_size. intros y Hy. rewrite (Hall y x Hy Hx). set_solver.
Qed.

Lemma default_last_cons {A} (d x : A) (l : list A) :
  default d (last (x :: l)) = default x (last l).
Proof.
  revert d x. induction l as [|y l IH]; intros d x; [done|].
  change (last (x :: y :: l)) with (last (y :: l)).
  by rewrite (IH d y), (IH x y).
Qed.

Section ListLoop.
Variable rec : resource → resource * option error.
Variable r : resource.

Let accepted (n : string) (item : value) : Prop :=
  ∃ child, item = VObj child ∧ GetNamespace (mkU child) = n
           ∧ (rec (inner_of r child)).2 = None.

(** While it runs, the loop holds at most one namespace in
    [declaredNamespaces].  From such a state it succeeds exactly when some
    namespace is the one seen so far and the one of every item left, and
    every item left is accepted. *)
Lemma eachListItem_validate_ok items declared ns :
  size declared ≤ 1 →
  (eachListItem_validate rec r items declared ns).2 = None
  ↔ ∃ n, (∀ x, x ∈ declared → x = n) ∧ Forall (accepted n) items.
Proof.
  revert declared ns. induction items as [|item rest IH]; intros declared ns Hsz.
  - simpl. split; [|done]. intros _.
    destruct (decide (size declared = 0)) as [H0|H0].
    + apply size_empty_inv in H0. exists "". split; [set_solver|done].
    + destruct (size_pos_elem_of declared) as [x Hx]; [lia|].
      exists x. split; [|done]. intros y Hy.
      by apply (proj1 (size_le_1_iff declared) Hsz).
  - destruct item as [|b0|z0|s0|its0|child];
      try (simpl; split; [done|]; intros (n & _ & Hall);
           apply Forall_cons in Hall as [(c & ? & _) _]; discriminate).
    cbn [eachListItem_validate inner_of obj].
    set (c := GetNamespace (mkU child)).
    case_bool_decide as Hbig.
    + simpl. split; [done|]. intros (n & Hd & Hall). exfalso.
      apply Forall_cons in Hall as [(c' & Hc' & Hcn & _) _]. simplify_eq.
      assert (size ({[c]} ∪ declared) ≤ 1); [|lia].
      apply size_le_1_iff. intros x y Hx Hy.
      assert (x = GetNamespace (mkU c')) as -> by (fold c; set_solver).
      fold c. set_solver.
    + assert (size ({[c]} ∪ declared) ≤ 1) as Hsz' by lia.
      destruct (rec (inner_of r child)) as [inner' [e|]] eqn:Hrec.
      * simpl. split; [done|]. intros (n & _ & Hall).
        apply Forall_cons in Hall as [(c' & Hc' & _ & Hok) _]. simplify_eq.
        rewrite Hrec in Hok. done.
      * specialize (IH ({[c]} ∪ declared) c Hsz').
        destruct (eachListItem_validate rec r rest ({[c]} ∪ declared) c)
          as [[rest' ns'] err'] eqn:Hloop.
        simpl in *. rewrite IH. split.
        -- intros (n & Hd & Hall). exists n.
           split; [intros x Hx; apply Hd; set_solver|].
           apply Forall_cons. split; [|done].
           exists child. split; [done|]. rewrite Hrec.
           split; [|done]. apply Hd. set_solver.
        -- intros (n & Hd & Hall).
           apply Forall_cons in Hall as [(c' & Hc' & Hcn & _) Hall].
           simplify_eq. exists (GetNamespace (mkU c')).
           split; [|done]. intros x Hx. fold c in Hx |- *.
           apply elem_of_union in Hx as [Hx|Hx]; [set_solver|by apply Hd].
Qed.

(** On success [ns] ends as the namespace of the last item, or as it began
    when there is no item. *)
Lemma eachListItem_validate_ns items declared ns items' ns' :
  eachListItem_validate rec r items declared ns = (items', ns', None) →
  ns' = default ns (last (item_namespace <$> items)).
Proof.
  revert declared ns items'. induction items as [|item rest IH];
    intros declared ns items' Hrun.
  - simpl in Hrun. by simplify_eq.
  - destruct item as [| | | | |child]; try discriminate.
    cbn [eachListItem_validate inner_of obj] in Hrun.
    case_bool_decide; [discriminate|].
    destruct (rec (inner_of r child)) as [inner' [e|]]; [discriminate|].
    destruct (eachListItem_validate rec r rest _ _) as [[rest' ns''] err'] eqn:Hloop.
    simplify_eq. apply IH in Hloop. subst ns'.
    by rewrite fmap_cons, default_last_cons.
Qed.

(** On success every item has been handed to [rec], and what [rec] left of
    it stands in its place. *)
Lemma eachListItem_validate_items items declared ns items' ns' :
  eachListItem_validate rec r items declared ns = (items', ns', None) →
  Forall2 (λ item item', ∃ child inner',
             item = VObj child ∧ rec (inner_of r child) = (inner', None)
             ∧ item' = VObj (Object (obj inner'))) items items'.
Proof.
  revert declared ns items'. induction items as [|item rest IH];
    intros declared ns items' Hrun.
  - simpl in Hrun. simplify_eq. constructor.
  - destruct item as [| | | | |child]; try discriminate.
    cbn [eachListItem_validate inner_of obj] in Hrun.
    case_bool_decide; [discriminate|].
    destruct (rec (inner_of r child)) as [inner' [e|]] eqn:Hrec; [discriminate|].
    destruct (eachListItem_validate rec r rest _ _) as [[rest' ns''] err'] eqn:Hloop.
    simplify_eq. constructor; [by eauto|]. by eapply IH.
Qed.

(** An item that declares another namespace than the accepted items before
    it stops the loop with the error that reports the file and the two
    namespaces. *)
Lemma eachListItem_validate_conflict pre child rest declared ns n :
  (declared = ∅ ∧ pre ≠ []) ∨ declared = {[n]} →
  Forall (accepted n) pre →
  GetNamespace (mkU child) ≠ n →
  (eachListItem_validate rec r (pre ++ VObj child :: rest) declared ns).2
  = Some (ErrListNamespaces (inputFilename r) {[GetNamespace (mkU child); n]}).
Proof.
  revert declared ns. induction pre as [|item pre IH]; intros declared ns Hd Hpre Hne.
  - destruct Hd as [[_ ?]| ->]; [done|].
    cbn [app eachListItem_validate inner_of obj].
    rewrite bool_decide_true; [done|].
    rewrite size_union, !size_singleton by set_solver. lia.
  - apply Forall_cons in Hpre as [(c & -> & Hc & Hok) Hpre].
    cbn [app eachListItem_validate inner_of obj]. rewrite Hc.
    assert ({[n]} ∪ declared = ({[n]} : gset string)) as ->.
    { destruct Hd as [[-> _]| ->]; set_solver. }
    rewrite bool_decide_false by (rewrite size_singleton; lia).
    destruct (rec (inner_of r c)) as [inner' [e|]]; [done|].
    specialize (IH {[n]} n (or_intror eq_refl) Hpre Hne).
    by destruct (eachListItem_validate rec r _ _ _) as [[rest' ns'] err'].
Qed.
End ListLoop.

Lemma validateResourceList_run r :
  IsList (obj r) = true →
  validateResourceList r
  = let '(items', ns, err) :=
      eachListItem_validate validateResource r (items_of (obj r)) ∅ "" in
    match err with
    | Some e => (set_obj r (with_items (obj r) items'), Some e)
    | None => (set_listNamespaceName (set_obj r (with_items (obj r) items')) ns, None)
    end.
Proof.
  intros Hl. unfold validateResourceList, validateResourceList_with. by rewrite Hl.
Qed.

Lemma validateResourceList_error r :
  IsList (obj r) = true →
  (validateResourceList r).2
  = (eachListItem_validate validateResource r (items_of (obj r)) ∅ "").2.
Proof.
  intros Hl. rewrite validateResourceList_run by done.
  destruct (eachListItem_validate _ _ _ _ _) as [[items' ns] [e|]]; done.
Qed.

(** An item that is not a list passes exactly when the namespace rule of
    [validateResource] lets it pass, with the scope of the list. *)
Lemma item_nonlist_passes r child :
  IsList (mkU child) = false →
  (validateResource (inner_of r child)).2 = None
  ↔ (namespaced r = true → GetNamespace (mkU child) ≠ "").
Proof.
  intros Hl. rewrite validateResource_nonlist by done.
  unfold validateNonList. cbn [inner_of namespaced obj].
  destruct (namespaced r); simpl.
  - case_bool_decide as Hns; simpl; split; try done.
    intros H. by destruct (H eq_refl).
  - case_bool_decide; simpl; split; done.
Qed.

(** On success [listNamespaceName] is the namespace every item declares. *)
Lemma validateResourceList_listNamespaceName r r' :
  IsList (obj r) = true → validateResourceList r = (r', None) →
  (items_of (obj r) = [] → listNamespaceName r' = "")
  ∧ (∀ item, item ∈ items_of (obj r) → listNamespaceName r' = item_namespace item).
Proof.
  intros Hl Hrun. rewrite validateResourceList_run in Hrun by done.
  destruct (eachListItem_validate _ _ _ _ _) as [[items' ns] [e|]] eqn:Hloop;
    [discriminate|].
  simplify_eq. cbn [listNamespaceName set_listNamespaceName].
    pose proof (eachListItem_validate_ns _ _ _ _ _ _ _ Hloop) as ->.
    split; [by intros ->|].
    intros item Hin.
    assert ((eachListItem_validate validateResource r (items_of (obj r)) ∅ "").2 = None)
      as Hok by (by rewrite Hloop).
    apply eachListItem_validate_ok in Hok as (n & _ & Hall);
      [|rewrite size_empty; lia].
    assert (∀ x, x ∈ items_of (obj r) → item_namespace x = n) as Hn.
    { intros x Hx. rewrite Forall_forall in Hall.
      destruct (Hall x Hx) as (c & -> & Hc & _). done. }
    rewrite (Hn item Hin).
    destruct (last (item_namespace <$> items_of (obj r))) as [x|] eqn:Hlast.
    + apply last_Some_elem_of in Hlast.
      apply list_elem_of_fmap in Hlast as (y & -> & Hy). simpl. by apply Hn.
    + apply last_None, fmap_nil_inv in Hlast. rewrite Hlast in Hin.
      by apply elem_of_nil in Hin.
Qed.

(** C5, as amended.  For a List-typed resource [r]:
    - validation succeeds if and only if every item is a map, all items
      declare one single namespace value, and every item passes
      [validateResource] itself ([item_accepted]);
    - for an item that is not a list, passing means: when the list is
      namespace-scoped, the namespace the item declares is not empty;
    - an item that declares another namespace than the accepted items before
      it makes the result the error that reports the input file and the set
      of the two namespaces;
    - on success [listNamespaceName] is the namespace of every item, and the
      empty string for an empty list. *)
Theorem validateResourceList_homogeneous (r : resource) :
  IsList (obj r) = true →
  ((validateResourceList r).2 = None
     ↔ ∃ n, Forall (item_accepted r n) (items_of (obj r)))
  ∧ (∀ child, IsList (mkU child) = false →
       (validateResource (inner_of r child)).2 = None
       ↔ (namespaced r = true → GetNamespace (mkU child) ≠ ""))
  ∧ (∀ pre child rest n,
       items_of (obj r) = pre ++ VObj child :: rest → pre ≠ [] →
       Forall (item_accepted r n) pre → GetNamespace (mkU child) ≠ n →
       (validateResourceList r).2
       = Some (ErrListNamespaces (inputFilename r) {[GetNamespace (mkU child); n]}))
  ∧ (∀ r', validateResourceList r = (r', None) →
       (items_of (obj r) = [] → listNamespaceName r' = "")
       ∧ (∀ item, item ∈ items_of (obj r) → listNamespaceName r' = item_namespace item)).
Proof.
  intros Hl. split; [|split; [|split]].
  - rewrite validateResourceList_error by done.
    rewrite eachListItem_validate_ok by (rewrite size_empty; lia).
    split; intros (n & H); exists n; [apply H | split; [set_solver | apply H]].
  - intros child Hc. by apply item_nonlist_passes.
  - intros pre child rest n Hitems Hpre Hacc Hne.
    rewrite validateResourceList_error, Hitems by done.
    apply eachListItem_validate_conflict; [by left | done | done].
  - intros r' Hrun. by apply validateResourceList_listNamespaceName.
Qed.

(** The two-item list with namespaces "a" and "b" fails with the error that
    names the file and both namespaces. *)
Lemma validateResourceList_homogeneous_witness :
  (validateResourceList list_two_namespaces).2
  = Some (ErrListNamespaces "f.yaml" {["b"; "a"]}).
Proof.
  destruct (validateResourceList_homogeneous list_two_namespaces eq_refl)
    as (_ & _ & Hconflict & _).
  apply (Hconflict [VObj (manifest "v1" "ConfigMap" "a" "a")]
                   (manifest "v1" "ConfigMap" "b" "b") [] "a").
  - reflexivity.
  - discriminate.
  - constructor; [|constructor].
    exists (manifest "v1" "ConfigMap" "a" "a"). repeat split; reflexivity.
  - vm_compute. discriminate.
Defined.

(** C5 as stated fails: every item of [list_missing_namespace] declares the
    one namespace "", and validation of the list fails, with the error of
    the item that lacks a namespace. *)
Lemma validateResourceList_homogeneous_counterexample :
  IsList (obj list_missing_namespace) = true
  ∧ Forall (λ item, item_namespace item = "") (items_of (obj list_missing_namespace))
  ∧ (validateResourceList list_missing_namespace).2
    = Some (ErrMissingNamespace
              (sample "f.yaml" (manifest_no_namespace "v1" "ConfigMap" "a") true)).
Proof.
  split; [reflexivity|]. split.
  - repeat constructor.
  - vm_compute. reflexivity.
Qed.

(** ** The namespace of a list itself *)

Lemma mkU_Object u : mkU (Object u) = u.
Proof. by destruct u. Qed.

Lemma top_field_SetNamespace k u ns :
  k ≠ "metadata" →
  lookup_field k (Object (SetNamespace u ns)) = lookup_field k (Object u).
Proof.
  intros Hk. unfold SetNamespace. case_decide as Hns.
  - subst ns. by apply (top_field_cleared k u).
  - simpl. destruct (lookup_field "metadata" (Object u)) as [[| | | | |m]|];
      try done; by rewrite lookup_set_field_ne.
Qed.

Lemma IsList_SetNamespace u ns : IsList (SetNamespace u ns) = IsList u.
Proof. unfold IsList. by rewrite top_field_SetNamespace. Qed.

Lemma items_of_SetNamespace u ns : items_of (SetNamespace u ns) = items_of u.
Proof. unfold items_of. by rewrite top_field_SetNamespace. Qed.

(** The loop over the items reads the list only through the copies it makes
    and through the file name, neither of which involves the list's object. *)
Lemma eachListItem_validate_set_obj rec r o items declared ns :
  eachListItem_validate rec (set_obj r o) items declared ns
  = eachListItem_validate rec r items declared ns.
Proof. reflexivity. Qed.

Lemma isNamespaceObject_with_items u items :
  isNamespaceObject (with_items u items) = isNamespaceObject u.
Proof.
  unfold isNamespaceObject. by rewrite GetKind_with_items, GetAPIVersion_with_items.
Qed.

(** What a successful validation leaves of a list. *)
Lemma validateResourceList_success r r' :
  IsList (obj r) = true → validateResourceList r = (r', None) →
  ∃ items' ns,
    eachListItem_validate validateResource r (items_of (obj r)) ∅ "" = (items', ns, None)
    ∧ r' = set_listNamespaceName (set_obj r (with_items (obj r) items')) ns.
Proof.
  intros Hl Hrun. rewrite validateResourceList_run in Hrun by done.
  destruct (eachListItem_validate _ _ _ _ _) as [[items' ns] [e|]] eqn:Hloop;
    [discriminate|].
  simplify_eq. eauto.
Qed.

(** C10, as amended.  For a List-typed resource [r] that passes validation
    and is left as [r']:
    - the list's own metadata.namespace is not modified;
    - it is not checked either: with any other value in it the list passes
      as well, with the same [listNamespaceName];
    - [listNamespaceName] is the namespace every item of [r] declares, as it
      stands before validation;
    - when the list is not namespace-scoped, every item of [r'] that is not
      itself a list has an empty namespace;
    - the classification bucket of [r'] is [listNamespaceName], unless the
      list object is itself a v1 Namespace, which goes under its name. *)
Theorem list_namespace_handling (r r' : resource) :
  IsList (obj r) = true → validateResource r = (r', None) →
  GetNamespace (obj r') = GetNamespace (obj r)
  ∧ (∀ ns, ∃ r'', validateResource (set_obj r (SetNamespace (obj r) ns)) = (r'', None)
                  ∧ listNamespaceName r'' = listNamespaceName r')
  ∧ (∀ item, item ∈ items_of (obj r) → listNamespaceName r' = item_namespace item)
  ∧ (namespaced r = false →
     ∀ item', item' ∈ items_of (obj r') →
       ∃ child', item' = VObj child'
                 ∧ (IsList (mkU child') = false → GetNamespace (mkU child') = ""))
  ∧ bucket r' = (if isNamespaceObject (obj r) then GetName (obj r)
                 else listNamespaceName r').
Proof.
  intros Hl Hrun. rewrite validateResource_list in Hrun by done.
  destruct (validateResourceList_listNamespaceName r r' Hl Hrun) as [_ Hitems].
  destruct (validateResourceList_success r r' Hl Hrun) as (items' & ns & Hloop & ->).
  cbn [obj set_obj set_listNamespaceName listNamespaceName] in *.
  split; [apply GetNamespace_with_items|].
  split; [|split; [done|split]].
  - intros ns0. eexists.
    rewrite validateResource_list by (simpl; by rewrite IsList_SetNamespace).
    rewrite validateResourceList_run by (simpl; by rewrite IsList_SetNamespace).
    cbn [obj set_obj]. rewrite items_of_SetNamespace, eachListItem_validate_set_obj, Hloop.
    split; reflexivity.
  - intros Hn item' Hin. rewrite items_of_with_items in Hin.
    apply eachListItem_validate_items in Hloop.
    destruct (proj1 (list_elem_of_lookup _ _) Hin) as [i Hi].
    destruct (Forall2_lookup_r _ _ _ _ _ Hloop Hi) as (item & _ & child & inner' & -> & Hrec & ->).
    eexists. split; [done|]. intros Hnl.
    destruct (IsList (mkU child)) eqn:Hcl.
    + rewrite validateResource_list in Hrec by done.
      apply validateResourceList_success in Hrec as (its & n & _ & ->); [|done].
      cbn [obj set_obj set_listNamespaceName with_items Object] in Hnl.
      unfold IsList in Hnl. cbn [Object] in Hnl.
      by rewrite lookup_set_field_eq in Hnl.
    + rewrite validateResource_nonlist in Hrec by done.
      unfold validateNonList in Hrec. cbn [inner_of namespaced obj] in Hrec.
      rewrite Hn in Hrec. simpl in Hrec.
      case_bool_decide as Hc; simpl in Hrec; simplify_eq.
      * done.
      * rewrite mkU_Object. cbn [set_obj obj]. apply GetNamespace_cleared.
  - unfold bucket. cbn [obj set_obj set_listNamespaceName listNamespaceName].
    rewrite IsList_with_items, isNamespaceObject_with_items, GetName_with_items.
    done.
Qed.

Lemma list_namespace_handling_witness :
  ∃ r', validateResource list_in_x = (r', None)
        ∧ listNamespaceName r' = "x" ∧ bucket r' = "x"
        ∧ Forall (λ item, item_namespace item = "") (items_of (obj r')).
Proof.
  destruct (validateResource list_in_x) as [r' err] eqn:Hrun.
  assert (err = None) as -> by (vm_compute in Hrun; congruence).
  destruct (list_namespace_handling list_in_x r' eq_refl Hrun)
    as (_ & _ & Hns & Hitems & Hbucket).
  exists r'. split; [reflexivity|].
  assert (listNamespaceName r' = "x") as Hx.
  { apply (Hns (VObj (manifest "v1" "ConfigMap" "a" "x"))). vm_compute. left. }
  split; [exact Hx|]. split; [rewrite Hbucket; exact Hx|].
  apply Forall_forall. intros item' Hin.
  destruct (Hitems eq_refl item' Hin) as (child' & -> & Hc).
  apply Hc. vm_compute in Hrun. injection Hrun as <-.
  vm_compute in Hin.
  apply elem_of_cons in Hin as [Hin|Hin]; [by simplify_eq|].
  apply elem_of_cons in Hin as [Hin|Hin]; [by simplify_eq|].
  by apply elem_of_nil in Hin.
Defined.

(** C10 as stated fails on an item that is itself a list: [list_of_list] is
    not namespace-scoped, its item declares the namespace "x", the list
    passes validation, and the item still declares "x" afterwards. *)
Lemma list_namespace_handling_counterexample :
  IsList (obj list_of_list) = true
  ∧ namespaced list_of_list = false
  ∧ Forall (λ item, item_namespace item = "x") (items_of (obj list_of_list))
  ∧ ∃ r', validateResource list_of_list = (r', None)
          ∧ Forall (λ item, item_namespace item = "x") (items_of (obj r')).
Proof.
  split; [reflexivity|]. split; [reflexivity|]. split; [repeat constructor|].
  eexists. split; [vm_compute; reflexivity|]. repeat constructor.
Qed.

(** ** Duplicates *)

Lemma findDuplicate_empty resources : findDuplicate ∅ resources = None.
Proof.
  induction resources as [|r rest IH]; [done|].
  simpl. by rewrite lookup_empty.
Qed.

(** With the map of line 176 left empty, [validateResourceFiles] is the
    local validation of the files, one after the other. *)
Lemma validateFiles_empty files :
  validateFiles ∅ files
  = match files with
    | [] => ([], None)
    | (name, resources) :: rest =>
        let '(resources', err) := validateResources resources in
        match err with
        | Some e => ((name, resources') :: rest, Some e)
        | None =>
            let '(rest', err') := validateFiles ∅ rest in
            ((name, resources') :: rest', err')
        end
    end.
Proof.
  destruct files as [|[name resources] rest]; [done|].
  simpl. destruct (validateResources resources) as [resources' [e|]]; [done|].
  by rewrite findDuplicate_empty.
Qed.

(** C1.  The code at the inputs of the claim: the two resources have the same
    Group-Kind and the same (name, namespace), in two files or in one, and
    [validateResourceFiles] returns no error and leaves the catalog as it
    was. *)
Theorem validateResourceFiles_misses_duplicate :
  gk_of (deployment_foo "a.yaml") = gk_of (deployment_foo "b.yaml")
  ∧ nn_of (deployment_foo "a.yaml") = nn_of (deployment_foo "b.yaml")
  ∧ validateResourceFiles duplicate_across_files = (duplicate_across_files, None)
  ∧ validateResourceFiles duplicate_in_file = (duplicate_in_file, None).
Proof. repeat split; vm_compute; reflexivity. Qed.

(** ** The order of the two passes *)











(** ** Classification *)

Lemma gather_flat files :
  gather files = foldl gather_resource ∅ (flat_map snd files).
Proof.
  unfold gather. generalize (∅ : gmap string (list resource)).
  induction files as [|[name rs] rest IH]; intros outputs; [done|].
  cbn [foldl flat_map snd]. rewrite foldl_app. apply IH.
Qed.

(** After the first loop of [main], the entry of a key holds the resources
    of that bucket, in the order they were met. *)
Lemma foldl_gather_lookup outputs resources ns :
  default [] (foldl gather_resource outputs resources !! ns)
  = default [] (outputs !! ns) ++ filter (λ r, bucket r = ns) resources.
Proof.
  revert outputs. induction resources as [|r rest IH]; intros outputs.
  - simpl. by rewrite app_nil_r.
  - cbn [foldl]. rewrite IH. unfold gather_resource.
    destruct (decide (bucket r = ns)) as [Heq|Hne].
    + rewrite filter_cons_True by done. subst ns.
      rewrite lookup_insert_eq. simpl. by rewrite <- app_assoc.
    + rewrite filter_cons_False by done. by rewrite lookup_insert_ne.
Qed.

Lemma foldl_gather_is_Some outputs resources ns :
  is_Some (foldl gather_resource outputs resources !! ns)
  ↔ is_Some (outputs !! ns) ∨ ∃ r, r ∈ resources ∧ bucket r = ns.
Proof.
  revert outputs. induction resources as [|r rest IH]; intros outputs.
  - simpl. split; [by left|]. intros [?|(r & Hr & _)]; [done|].
    by apply elem_of_nil in Hr.
  - cbn [foldl]. rewrite IH. unfold gather_resource. split.
    + intros [Hs|(r' & Hr' & Hb)].
      * destruct (decide (bucket r = ns)) as [Heq|Hne].
        -- right. exists r. split; [left|done].
        -- left. by rewrite lookup_insert_ne in Hs.
      * right. exists r'. split; [by right|done].
    + intros [Hs|(r' & Hr' & Hb)].
      * left. destruct (decide (bucket r = ns)) as [Heq|Hne].
        -- subst ns. by rewrite lookup_insert_eq.
        -- by rewrite lookup_insert_ne.
      * apply elem_of_cons in Hr' as [->|Hr'].
        -- left. subst ns. by rewrite lookup_insert_eq.
        -- right. by exists r'.
Qed.

Lemma gather_lookup files ns list :
  gather files !! ns = Some list →
  list = filter (λ r, bucket r = ns) (flat_map snd files).
Proof.
  intros H. pose proof (foldl_gather_lookup ∅ (flat_map snd files) ns) as Hg.
  rewrite <- gather_flat, H, lookup_empty in Hg. done.
Qed.

Lemma gather_elem files name resources r :
  (name, resources) ∈ files → r ∈ resources →
  ∃ list, gather files !! bucket r = Some list ∧ r ∈ list.
Proof.
  intros Hf Hr.
  assert (r ∈ flat_map snd files) as Hin.
  { apply list_elem_of_In, in_flat_map. exists (name, resources).
    split; by apply list_elem_of_In. }
  destruct (proj2 (foldl_gather_is_Some ∅ (flat_map snd files) (bucket r)))
    as [list Hl].
  { right. by exists r. }
  rewrite <- gather_flat in Hl. exists list. split; [done|].
  rewrite (gather_lookup _ _ _ Hl). by apply list_elem_of_filter.
Qed.

Section Classification.
Variable Join : list string → string.
Variable outputDir : string.

(** C7.  For every resource [r] of the catalog that [main] classifies:
    - its bucket is its own metadata.namespace, except that a list uses its
      [listNamespaceName] and a v1 Namespace its own metadata.name (the
      Namespace rule is applied last);
    - [main] files the resource under that key, and every resource filed
      under a key has that key as its bucket;
    - its file is written to the directory of the bucket ("cluster" for the
      empty key, "namespaces/<key>" otherwise), except that a
      configmanagement.gke.io/v1 Repo is written to "system", whatever its
      bucket, while still filed under its bucket;
    - a resource that is neither a list nor namespace-scoped has an empty
      metadata.namespace once validated, so its own namespace sends it to
      the empty bucket. *)
Theorem classification (files : catalog) (name : string) (resources : list resource)
    (r : resource) :
  (name, resources) ∈ files → r ∈ resources →
  bucket r = (if isNamespaceObject (obj r) then GetName (obj r)
              else if IsList (obj r) then listNamespaceName r
              else GetNamespace (obj r))
  ∧ (∃ list, gather files !! bucket r = Some list ∧ r ∈ list)
  ∧ (∀ ns list r', gather files !! ns = Some list → r' ∈ list → bucket r' = ns)
  ∧ (Join [dir_of Join outputDir (bucket r) r; resourceFilename r], data r)
      ∈ writes Join outputDir (gather files)
  ∧ dir_of Join outputDir (bucket r) r
    = (if isRepoObject (obj r) then Join [outputDir; "system"]
       else if decide (bucket r = "") then Join [outputDir; "cluster"]
       else Join [outputDir; "namespaces"; bucket r])
  ∧ (∀ r0, validateResource r0 = (r, None) → IsList (obj r0) = false →
           namespaced r0 = false → GetNamespace (obj r) = "").
Proof.
  intros Hf Hr. split; [|split; [|split; [|split; [|split]]]].
  - unfold bucket. by destruct (isNamespaceObject (obj r)), (IsList (obj r)).
  - by eapply gather_elem.
  - intros ns list r' Hl Hr'. rewrite (gather_lookup _ _ _ Hl) in Hr'.
    by apply list_elem_of_filter in Hr' as [? _].
  - destruct (gather_elem _ _ _ _ Hf Hr) as (list & Hl & Hin).
    unfold writes. apply list_elem_of_In, in_flat_map.
    exists (bucket r, list). split.
    + apply list_elem_of_In. by apply elem_of_map_to_list.
    + apply in_map_iff. exists r. split; [done|]. by apply list_elem_of_In.
  - done.
  - intros r0 Hval Hl Hn. rewrite validateResource_nonlist in Hval by done.
    unfold validateNonList in Hval. rewrite Hn in Hval. simpl in Hval.
    case_bool_decide as Hns; simpl in Hval; simplify_eq; [done|].
    apply GetNamespace_cleared.
Qed.
End Classification.

Lemma classification_witness :
  bucket namespace_team_a = "team-a"
  ∧ dir_of (String.concat "/") "config" (bucket repo_object) repo_object
    = "config/system"
  ∧ ∃ list, gather [("a.yaml", [namespace_team_a; repo_object])] !! "ns1" = Some list
            ∧ repo_object ∈ list.
Proof.
  pose proof (classification (String.concat "/") "config"
                [("a.yaml", [namespace_team_a; repo_object])]
                "a.yaml" [namespace_team_a; repo_object]) as H.
  split; [|split].
  - destruct (H namespace_team_a) as (Hb & _); [left | left |]. exact Hb.
  - destruct (H repo_object) as (_ & _ & _ & _ & Hd & _);
      [left | right; left |]. exact Hd.
  - destruct (H repo_object) as (_ & Hg & _); [left | right; left |]. exact Hg.
Defined.

(** ** Decoding *)

Section DecodeProofs.
Variable yaml_Unmarshal json_Unmarshal : list byte → result Unstructured.
Variable yaml_Marshal json_Marshal : Unstructured → result (list byte).
Variable expandLists : bool.

Lemma DecodeYAML_progress : makes_progress (DecodeYAML yaml_Unmarshal).
Proof.
  intros r into r' u bytes err. unfold DecodeYAML, YAMLReader_Read.
  destruct r as [j [|[b|msg] rest]]; simpl.
  - intros Hrun. simplify_eq. by left.
  - case_bool_decide; [destruct (yaml_Unmarshal b)|];
      intros Hrun; simplify_eq; right; simpl; lia.
  - intros Hrun. simplify_eq. right. simpl. lia.
Qed.

Lemma DecodeJSON_progress : makes_progress (DecodeJSON json_Unmarshal).
Proof.
  intros r into r' u bytes err. unfold DecodeJSON, ReadAll.
  destruct r as [j [|c rest]].
  - simpl. intros Hrun. simplify_eq. by left.
  - cbn [pending isJSON]. destruct (drain (c :: rest)) as [data [e|]].
    + intros Hrun. simplify_eq. right. simpl. lia.
    + case_bool_decide; [|destruct (json_Unmarshal data)];
        intros Hrun; simplify_eq; right; simpl; lia.
Qed.

Lemma decodeLoop_total input decode encode format :
  makes_progress decode →
  ∀ fuel r idx resources,
    length (pending r) < fuel →
    is_Some (decodeLoop expandLists input decode encode format fuel r idx resources).
Proof.
  intros Hprog. induction fuel as [|fuel IH]; intros r idx resources Hfuel; [lia|].
  cbn [decodeLoop].
  destruct (decode r emptyU) as [[r' u] [bytes err]] eqn:Hdec.
  destruct (Hprog _ _ _ _ _ _ Hdec) as [Heof|Hlt].
  { rewrite Heof. done. }
  destruct (is_EOF err); [done|].
  destruct err as [e|]; [done|].
  destruct (_ || _); [apply IH; lia|].
  destruct (_ && _).
  - destruct (eachListItem_expand _ _ _ _ _ _) as [[rs' idx'] err'].
    apply IH. lia.
  - apply IH. lia.
Qed.

(** [decodeResourceManifest] returns, on every stream: the bound on the
    iterations of its loop is never reached. *)
Lemma decodeResourceManifest_total input r :
  is_Some (decodeResourceManifest yaml_Unmarshal json_Unmarshal yaml_Marshal
             json_Marshal expandLists input r).
Proof.
  unfold decodeResourceManifest. destruct (negb (isJSON r)).
  - apply decodeLoop_total; [apply DecodeYAML_progress | lia].
  - apply decodeLoop_total; [apply DecodeJSON_progress | lia].
Qed.

(** *** Expansion of a list *)

Lemma number_app input format idx l1 l2 :
  number input format idx (l1 ++ l2)
  = number input format idx l1
    ++ number input format (idx + Z.of_nat (length l1)) l2.
Proof.
  revert idx. induction l1 as [|d l1 IH]; intros idx.
  - simpl. by rewrite Z.add_0_r.
  - cbn [app number length]. rewrite IH. do 3 f_equal. lia.
Qed.

Lemma number_lookup input format idx l k doc :
  l !! k = Some doc →
  number input format idx l !! k
  = Some (mkResource (idx + Z.of_nat k) input doc.1 format doc.2 false "").
Proof.
  revert idx k. induction l as [|d l IH]; intros idx k Hk; [done|].
  destruct k as [|k]; simpl in *.
  - simplify_eq. by rewrite Z.add_0_r.
  - rewrite (IH _ _ Hk). do 2 f_equal. lia.
Qed.

Lemma length_number input format idx l : length (number input format idx l) = length l.
Proof. revert idx. induction l as [|d l IH]; intros idx; simpl; by rewrite ?IH. Qed.

(** The callback appends one resource per item, in order, until an item is
    not a map or the encoder fails. *)
Lemma eachListItem_expand_spec input encode format items idx resources :
  (eachListItem_expand input encode format items idx resources).1
  = (resources ++ number input format idx (encoded_items encode items),
     (idx + Z.of_nat (length (encoded_items encode items)))%Z).
Proof.
  revert idx resources. induction items as [|item rest IH]; intros idx resources.
  - simpl. by rewrite app_nil_r, Z.add_0_r.
  - destruct item as [| | | | |child];
      try (simpl; by rewrite app_nil_r, Z.add_0_r).
    cbn [eachListItem_expand encoded_items]. destruct (encode (mkU child)) as [bytes|e].
    + rewrite IH. cbn [number length fst snd]. rewrite <- app_assoc. simpl.
      f_equal. lia.
    + simpl. by rewrite app_nil_r, Z.add_0_r.
Qed.

Lemma encoded_items_lookup encode items k doc :
  encoded_items encode items !! k = Some doc →
  ∃ child, items !! k = Some (VObj child) ∧ doc.2 = mkU child
           ∧ encode (mkU child) = Ok doc.1.
Proof.
  revert k. induction items as [|item rest IH]; intros k Hk; [done|].
  destruct item as [| | | | |child]; try done.
  simpl in Hk. destruct (encode (mkU child)) as [bytes|e] eqn:He; [|done].
  destruct k as [|k]; simpl in *.
  - simplify_eq. by exists child.
  - by apply IH.
Qed.
End DecodeProofs.

(** *** YAML streams *)

Section YAMLStream.
Variable yaml_Unmarshal json_Unmarshal : list byte → result Unstructured.
Variable yaml_Marshal json_Marshal : Unstructured → result (list byte).
Variable expandLists : bool.


Lemma DecodeYAML_end into :
  DecodeYAML yaml_Unmarshal (yaml_stream []) into
  = (yaml_stream [], into, ([], Some EOF)).
Proof. reflexivity. Qed.



End YAMLStream.



(** *** File names of expanded items *)

Lemma resourceFilename_cases r :
  resourceFilename r
  = if IsList (obj r) then indexed_filename r else named_filename r.
Proof. reflexivity. Qed.

(** C3, as amended.  The file name with the index is the name of a resource
    that is itself a list; a resource that is not a list is named after its
    kind and name, or "namespace" for a v1 Namespace.  The [k]-th resource
    that the expansion of a list appends is the [k]-th item, with the next
    index of the file, and is named by the same rule: by kind, index and
    input file when the item is itself a list, by kind and name otherwise. *)
Theorem expanded_item_filename (input : string) (encode : encoder) (format0 : formatT)
    (items : list value) (idx0 : Z) (resources : list resource) (k : nat) (r : resource) :
  (eachListItem_expand input encode format0 items idx0 resources).1.1
    !! (length resources + k) = Some r →
  (∀ r', resourceFilename r'
         = if IsList (obj r') then indexed_filename r' else named_filename r')
  ∧ ∃ child, items !! k = Some (VObj child)
             ∧ obj r = mkU child ∧ idx r = (idx0 + Z.of_nat k)%Z
             ∧ inputFilename r = input ∧ format r = format0
             ∧ resourceFilename r
               = if IsList (mkU child) then indexed_filename r else named_filename r.
Proof.
  intros Hk. split; [apply resourceFilename_cases|].
  rewrite eachListItem_expand_spec in Hk. cbn [fst] in Hk.
  rewrite lookup_app_r in Hk by lia.
  replace (length resources + k - length resources) with k in Hk by lia.
  destruct (encoded_items encode items !! k) as [doc|] eqn:Hdoc.
  - rewrite (number_lookup _ _ _ _ _ _ Hdoc) in Hk. simplify_eq.
    destruct (encoded_items_lookup _ _ _ _ Hdoc) as (child & Hitem & Hobj & _).
    exists child. rewrite resourceFilename_cases. cbn [obj idx inputFilename format].
    by rewrite Hobj.
  - apply lookup_ge_None in Hdoc.
    assert (is_Some (number input format0 idx0 (encoded_items encode items) !! k)) as Hs
      by (by rewrite Hk).
    apply lookup_lt_is_Some in Hs. rewrite length_number in Hs. lia.
Qed.

Lemma expanded_item_filename_witness :
  ∃ r, (eachListItem_expand "b.json" marshal_any jsonFormat (items_of list_b) 0 []).1.1
         !! 1 = Some r
       ∧ idx r = 1%Z ∧ resourceFilename r = "ConfigMap-cm1.json".
Proof.
  eexists. split; [vm_compute; reflexivity|].
  destruct (expanded_item_filename "b.json" marshal_any jsonFormat (items_of list_b)
              0 [] 1 _ ltac:(vm_compute; reflexivity))
    as (_ & child & Hitem & _ & Hidx & _ & _ & Hname).
  split; [exact Hidx|].
  vm_compute in Hitem. injection Hitem as <-. exact Hname.
Defined.

(** C3 as stated fails: the three items of the v1 List of b.json, expanded,
    get the indices 0, 1 and 2 and are written to files named after their
    kind and name, not after kind, index and input file. *)
Lemma expanded_item_filename_counterexample :
  ∃ resources,
    decodeResourceManifest (unmarshal_as list_b) (unmarshal_as list_b)
      marshal_any marshal_any true "b.json" reader_b = Some (resources, None)
    ∧ idx <$> resources = [0; 1; 2]%Z
    ∧ resourceFilename <$> resources
      = ["ConfigMap-cm0.json"; "ConfigMap-cm1.json"; "ConfigMap-cm2.json"]
    ∧ resourceFilename <$> resources
      ≠ ["ConfigMap-0-b.json"; "ConfigMap-1-b.json"; "ConfigMap-2-b.json"].
Proof.
  eexists. split; [vm_compute; reflexivity|].
  split; [reflexivity|]. split; [vm_compute; reflexivity|].
  vm_compute. discriminate.
Qed.

(** *** A failing encoder *)

(** C4.  The code at an input of the claim: the printer refuses the second
    item of the List of b.json.  The callback returns the error, which stops
    [EachListItem]; line 324 drops it, and [decodeResourceManifest] returns
    without error the resource of the first item alone. *)
Theorem expansion_drops_encode_error :
  (eachListItem_expand "b.json" (marshal_except "cm1") jsonFormat (items_of list_b) 0 []).2
  = Some (ErrExternal "json: unsupported value")
  ∧ decodeResourceManifest (unmarshal_as list_b) (unmarshal_as list_b)
      marshal_any (marshal_except "cm1") true "b.json" reader_b
    = Some ([mkResource 0 "b.json" (String.list_byte_of_string "{}") jsonFormat
               (mkU (manifest "v1" "ConfigMap" "cm0" "ns2")) false ""],
            None).
Proof. split; vm_compute; reflexivity. Qed.

(** * Further properties of the code *)

(** ** What validation keeps *)

Lemma validateNonList_keeps r :
  same_fields r (validateNonList r).1
  ∧ same_identity (obj r) (obj (validateNonList r).1)
  ∧ listNamespaceName (validateNonList r).1 = listNamespaceName r.
Proof.
  unfold validateNonList, same_fields, same_identity.
  destruct (namespaced r && _); [done|].
  destruct (negb (namespaced r) && _); [|done]. simpl.
  by rewrite GetKind_cleared, GetAPIVersion_cleared, GetName_cleared, IsList_cleared.
Qed.

Lemma validateResourceList_keeps r :
  IsList (obj r) = true →
  same_fields r (validateResourceList r).1
  ∧ same_identity (obj r) (obj (validateResourceList r).1)
  ∧ ((validateResourceList r).2 ≠ None →
     listNamespaceName (validateResourceList r).1 = listNamespaceName r).
Proof.
  intros Hl. rewrite validateResourceList_run by done.
  destruct (eachListItem_validate _ _ _ _ _) as [[items' ns] [e|]];
    unfold same_fields, same_identity; simpl;
    rewrite GetKind_with_items, GetAPIVersion_with_items, GetName_with_items,
      IsList_with_items, Hl; done.
Qed.

(** [validateResource] touches nothing but the object and, for a list that
    passes, [listNamespaceName]: index, input file, bytes, format and scope
    stay, and in the object the kind, the apiVersion, the name and the fact
    of being a list stay.  In particular the bytes that [main] writes are
    those of before the validation, whatever it cleared in the object. *)
Theorem validateResource_keeps (r : resource) :
  same_fields r (validateResource r).1
  ∧ same_identity (obj r) (obj (validateResource r).1)
  ∧ gk_of (validateResource r).1 = gk_of r
  ∧ ((validateResource r).2 ≠ None ∨ IsList (obj r) = false →
     listNamespaceName (validateResource r).1 = listNamespaceName r).
Proof.
  rewrite validateResource_eq. destruct (IsList (obj r)) eqn:Hl.
  - destruct (validateResourceList_keeps r Hl) as (Hf & Hi & Hn).
    split; [done|]. split; [done|]. split.
    + destruct Hi as (Hk & Ha & _). unfold gk_of, GroupVersionKindOf.
      by rewrite Hk, Ha.
    + intros [He|?]; [by apply Hn|done].
  - destruct (validateNonList_keeps r) as (Hf & Hi & Hn).
    split; [done|]. split; [done|]. split; [|done].
    destruct Hi as (Hk & Ha & _). unfold gk_of, GroupVersionKindOf.
    by rewrite Hk, Ha.
Qed.

(** ** The errors of validation *)

Lemma eachListItem_validate_error rec r items declared ns e :
  (∀ x e', (rec x).2 = Some e' → validation_error e') →
  (eachListItem_validate rec r items declared ns).2 = Some e →
  validation_error e.
Proof.
  intros Hrec. revert declared ns.
  induction items as [|item rest IH]; intros declared ns; [done|].
  destruct item as [| | | | |child];
    try (simpl; intros He; by simplify_eq).
  cbn [eachListItem_validate]. case_bool_decide.
  { simpl. intros He. by simplify_eq. }
  destruct (rec (inner_of r child)) as [inner' [e'|]] eqn:Hr.
  { simpl. intros He. simplify_eq. apply (Hrec (inner_of r child)). by rewrite Hr. }
  specialize (IH ({[GetNamespace (obj (inner_of r child))]} ∪ declared)
                 (GetNamespace (obj (inner_of r child)))).
  by destruct (eachListItem_validate rec r rest _ _) as [[rest' ns'] err'].
Qed.

Lemma validateNonList_error r e :
  (validateNonList r).2 = Some e → validation_error e.
Proof.
  unfold validateNonList. destruct (namespaced r && _).
  - simpl. intros He. simplify_eq. exact I.
  - by destruct (negb (namespaced r) && _).
Qed.

Lemma validateResource_at_error n r e :
  (validateResource_at n r).2 = Some e → validation_error e.
Proof.
  revert r e. induction n as [|n IH]; intros r e; simpl.
  - destruct (IsList (obj r)); [done|apply validateNonList_error].
  - destruct (IsList (obj r)) eqn:Hl.
    + unfold validateResourceList_with. rewrite Hl. simpl.
      pose proof (eachListItem_validate_error (validateResource_at n) r
                    (items_of (obj r)) ∅ "") as Hloop.
      destruct (eachListItem_validate _ _ _ _ _) as [[items' ns] [e'|]]; [|done].
      simpl. intros He. simplify_eq. apply Hloop; [|done]. intros x e'. apply IH.
    + apply validateNonList_error.
Qed.

Lemma validateResource_error r e :
  (validateResource r).2 = Some e → validation_error e.
Proof. apply validateResource_at_error. Qed.

(** ** The loops of validation *)

(** [validateResources] passes exactly when every resource passes on its
    own, and then holds each resource as its own validation left it.  When
    it fails, it fails with the error of the first resource that fails:
    those before it are validated, it is as its failed validation left it,
    and those after it are untouched. *)
Theorem validateResources_outcome (resources resources' : list resource)
    (err : option error) :
  validateResources resources = (resources', err) →
  match err with
  | None => Forall2 (λ r r', validateResource r = (r', None)) resources resources'
  | Some e =>
      ∃ pre r post pre' r',
        resources = pre ++ r :: post
        ∧ Forall2 (λ r0 r0', validateResource r0 = (r0', None)) pre pre'
        ∧ validateResource r = (r', Some e)
        ∧ resources' = pre' ++ r' :: post
  end.
Proof.
  revert resources' err. induction resources as [|r rest IH];
    intros resources' err Hrun; simpl in Hrun.
  - simplify_eq. constructor.
  - destruct (validateResource r) as [r' [e|]] eqn:Hr.
    + simplify_eq. exists [], r, rest, [], r'. repeat split; [constructor|done].
    + destruct (validateResources rest) as [rest' err'] eqn:Hrest.
      simplify_eq. specialize (IH _ _ eq_refl). destruct err as [e|].
      * destruct IH as (pre & r0 & post & pre' & r0' & -> & Hpre & Hr0 & ->).
        exists (r :: pre), r0, post, (r' :: pre'), r0'.
        repeat split; [by constructor|done].
      * by constructor.
Qed.

Lemma validateResources_outcome_witness :
  Forall2 (λ r r', validateResource r = (r', None))
    [configmap_cfg; clusterrole_cr]
    [configmap_cfg; set_obj clusterrole_cr (SetNamespace (obj clusterrole_cr) "")].
Proof.
  apply (validateResources_outcome [configmap_cfg; clusterrole_cr] _ None).
  vm_compute. reflexivity.
Defined.

Lemma validateResources_pass resources :
  (validateResources resources).2 = None
  ↔ Forall (λ r, (validateResource r).2 = None) resources.
Proof.
  induction resources as [|r rest IH]; simpl; [done|].
  destruct (validateResource r) as [r' [e|]] eqn:Hr.
  - simpl. split; [done|]. intros H. apply Forall_cons in H as [H _].
    by rewrite Hr in H.
  - destruct (validateResources rest) as [rest' err']. simpl in *.
    rewrite IH. split.
    + intros H. apply Forall_cons. by rewrite Hr.
    + intros H. by apply Forall_cons in H as [_ H].
Qed.

Lemma validateResources_result resources :
  (validateResources resources).2 = None →
  (validateResources resources).1 = (λ r, (validateResource r).1) <$> resources.
Proof.
  induction resources as [|r rest IH]; simpl; [done|].
  destruct (validateResource r) as [r' [e|]] eqn:Hr; [done|].
  destruct (validateResources rest) as [rest' err']. simpl in *.
  intros ->. by rewrite IH.
Qed.

Lemma validateFiles_pass files :
  (validateFiles ∅ files).2 = None
  ↔ Forall (λ entry, Forall (λ r, (validateResource r).2 = None) entry.2) files.
Proof.
  induction files as [|[name rs] rest IH]; [done|].
  rewrite validateFiles_empty.
  pose proof (validateResources_pass rs) as Hrs.
  destruct (validateResources rs) as [rs' [e|]]; simpl in *.
  - split; [done|]. intros H. apply Forall_cons in H as [H _]. simpl in H.
    by apply Hrs in H.
  - destruct (validateFiles ∅ rest) as [rest' err']. simpl in *. rewrite IH.
    split.
    + intros H. apply Forall_cons. split; [by apply Hrs|done].
    + intros H. by apply Forall_cons in H as [_ H].
Qed.

Lemma validateFiles_result files :
  (validateFiles ∅ files).2 = None →
  (validateFiles ∅ files).1
  = (λ entry : string * list resource,
       (entry.1, (λ r, (validateResource r).1) <$> entry.2)) <$> files.
Proof.
  induction files as [|[name rs] rest IH]; [done|].
  rewrite validateFiles_empty.
  pose proof (validateResources_result rs) as Hrs.
  destruct (validateResources rs) as [rs' [e|]]; simpl in *; [done|].
  destruct (validateFiles ∅ rest) as [rest' err']. simpl in *.
  intros ->. by rewrite IH, Hrs.
Qed.

Lemma validateResources_error resources e :
  (validateResources resources).2 = Some e →
  ∃ r, r ∈ resources ∧ (validateResource r).2 = Some e.
Proof.
  induction resources as [|r rest IH]; simpl; [done|].
  destruct (validateResource r) as [r' [e'|]] eqn:Hr.
  - simpl. intros He. simplify_eq. exists r. split; [left|by rewrite Hr].
  - destruct (validateResources rest) as [rest' err']. simpl in *.
    intros He. destruct (IH He) as (r0 & Hin & Hv). exists r0. split; [by right|done].
Qed.

Lemma validateFiles_error files e :
  (validateFiles ∅ files).2 = Some e →
  ∃ name rs r, (name, rs) ∈ files ∧ r ∈ rs ∧ (validateResource r).2 = Some e.
Proof.
  induction files as [|[name rs] rest IH]; [done|].
  rewrite validateFiles_empty.
  destruct (validateResources rs) as [rs' [e'|]] eqn:Hrs; simpl.
  - intros He. simplify_eq.
    destruct (validateResources_error rs e) as (r & Hin & Hr); [by rewrite Hrs|].
    exists name, rs, r. split; [left|done].
  - destruct (validateFiles ∅ rest) as [rest' err']. simpl in *.
    intros He. destruct (IH He) as (n & rs0 & r & Hin & Hr & Hv).
    exists n, rs0, r. split; [by right|done].
Qed.

(** For every catalog and every order of the visit: [validateResourceFiles]
    passes exactly when every resource of every file passes
    [validateResource] on its own, so whether it passes does not depend on
    the order in which the files are visited; when it passes, the catalog it
    leaves holds each resource as [validateResource] left it; and an error it
    returns is the error [validateResource] gives for one of the resources,
    which is never the duplicate error. *)
Theorem validateResourceFiles_outcome (files : catalog) :
  ((validateResourceFiles files).2 = None
     ↔ Forall (λ entry, Forall (λ r, (validateResource r).2 = None) entry.2) files)
  ∧ ((validateResourceFiles files).2 = None →
     (validateResourceFiles files).1
     = (λ entry : string * list resource,
          (entry.1, (λ r, (validateResource r).1) <$> entry.2)) <$> files)
  ∧ (∀ files', files ≡ₚ files' →
       (validateResourceFiles files).2 = None
       ↔ (validateResourceFiles files').2 = None)
  ∧ (∀ e, (validateResourceFiles files).2 = Some e →
       (∃ name rs r, (name, rs) ∈ files ∧ r ∈ rs ∧ (validateResource r).2 = Some e)
       ∧ ∀ ns name gk, e ≠ ErrDuplicate ns name gk).
Proof.
  unfold validateResourceFiles. split; [apply validateFiles_pass|].
  split; [apply validateFiles_result|]. split.
  - intros files' Hperm. rewrite !validateFiles_pass. by rewrite Hperm.
  - intros e He. destruct (validateFiles_error _ _ He) as (n & rs & r & Hin & Hr & Hv).
    split; [by exists n, rs, r|].
    intros ns name gk ->. by apply validateResource_error in Hv.
Qed.

(** ** The duplicate test on a map that holds entries *)

Lemma alreadyContains_elem_of list toFind :
  alreadyContains list toFind = true ↔ toFind ∈ list.
Proof.
  induction list as [|e list IH]; simpl.
  - split; [done|]. intros H. by apply elem_of_nil in H.
  - destruct (decide (toFind = e)) as [->|Hne].
    + split; [intros _; left|done].
    + rewrite IH. split; [by right|].
      intros H. apply elem_of_cons in H as [?|?]; done.
Qed.

(** Whatever [existingResources] holds, the loop of lines 182-190 passes
    exactly when no resource has its (name, namespace) recorded under its
    Group-Kind, and otherwise returns the duplicate error of the first
    resource that has, with its namespace, its name and its Group-Kind. *)
Theorem findDuplicate_outcome (existingResources : gmap GroupKind (list namespacedName))
    (resources : list resource) :
  (findDuplicate existingResources resources = None
     ↔ Forall (λ r, nn_of r ∉ default [] (existingResources !! gk_of r)) resources)
  ∧ (∀ e, findDuplicate existingResources resources = Some e →
       ∃ pre r post,
         resources = pre ++ r :: post
         ∧ Forall (λ r0, nn_of r0 ∉ default [] (existingResources !! gk_of r0)) pre
         ∧ nn_of r ∈ default [] (existingResources !! gk_of r)
         ∧ e = ErrDuplicate (GetNamespace (obj r)) (GetName (obj r))
                 (GroupKind_String (gk_of r))).
Proof.
  induction resources as [|r rest [IH1 IH2]]; simpl.
  - split; [done|]. intros e He. discriminate.
  - destruct (alreadyContains _ _) eqn:Hc.
    + apply alreadyContains_elem_of in Hc. split.
      * split; [done|]. intros H. by apply Forall_cons in H as [H _].
      * intros e He. simplify_eq. by exists [], r, rest.
    + assert (nn_of r ∉ default [] (existingResources !! gk_of r)) as Hn.
      { intros Hin. apply alreadyContains_elem_of in Hin. congruence. }
      split.
      * rewrite IH1. split; [by constructor|].
        intros H. by apply Forall_cons in H as [_ H].
      * intros e He. destruct (IH2 e He) as (pre & r0 & post & -> & Hpre & Hin & ->).
        exists (r :: pre), r0, post. split; [done|]. split; [by constructor|done].
Qed.

(** ** Discovery *)

Section DiscoveryProofs.
Variable IsNamespaced : GroupVersionKind → result bool.

Let resolved (r r' : resource) : Prop :=
  ∃ b, IsNamespaced (GroupVersionKindOf (obj r)) = Ok b ∧ r' = set_namespaced r b.

Lemma populateResources_outcome resources resources' err :
  populateResources IsNamespaced resources = (resources', err) →
  match err with
  | None => Forall2 resolved resources resources'
  | Some e =>
      ∃ pre r post pre',
        resources = pre ++ r :: post ∧ Forall2 resolved pre pre'
        ∧ IsNamespaced (GroupVersionKindOf (obj r)) = Err e
        ∧ resources' = pre' ++ r :: post
  end.
Proof.
  revert resources' err. induction resources as [|r rest IH];
    intros resources' err Hrun; simpl in Hrun.
  - simplify_eq. constructor.
  - destruct (IsNamespaced (GroupVersionKindOf (obj r))) as [b|e] eqn:Hr.
    + destruct (populateResources IsNamespaced rest) as [rest' err'] eqn:Hrest.
      simplify_eq. specialize (IH _ _ eq_refl). destruct err as [e|].
      * destruct IH as (pre & r0 & post & pre' & -> & Hpre & Hr0 & ->).
        exists (r :: pre), r0, post, (set_namespaced r b :: pre').
        repeat split; [|done]. constructor; [by exists b|done].
      * constructor; [by exists b|done].
    + simplify_eq. exists [], r, rest, []. repeat split; [constructor|done].
Qed.

(** [populateNamespacedField] asks the server once for every resource, in
    order, with the group, version and kind of its object.  When every lookup
    answers, it returns no error and each resource is as it was but for
    [namespaced], which holds the answer.  When a lookup fails, it stops: the
    error carries the key of the file of that resource and the error of the
    lookup, the resources visited before hold their answers and the others
    are untouched. *)
Theorem populateNamespacedField_outcome (files files' : catalog)
    (err : option (string * error)) :
  populateNamespacedField IsNamespaced files = (files', err) →
  match err with
  | None =>
      Forall2 (λ entry entry', entry'.1 = entry.1 ∧ Forall2 resolved entry.2 entry'.2)
        files files'
  | Some (file, e) =>
      ∃ before resources after before' pre r post pre',
        files = before ++ (file, resources) :: after
        ∧ Forall2 (λ entry entry', entry'.1 = entry.1 ∧ Forall2 resolved entry.2 entry'.2)
            before before'
        ∧ resources = pre ++ r :: post ∧ Forall2 resolved pre pre'
        ∧ IsNamespaced (GroupVersionKindOf (obj r)) = Err e
        ∧ files' = before' ++ (file, pre' ++ r :: post) :: after
  end.
Proof.
  revert files' err. induction files as [|[name rs] rest IH];
    intros files' err Hrun; simpl in Hrun.
  - simplify_eq. constructor.
  - destruct (populateResources IsNamespaced rs) as [rs' err1] eqn:Hrs.
    pose proof (populateResources_outcome _ _ _ Hrs) as H1.
    destruct err1 as [e|].
    + simplify_eq. destruct H1 as (pre & r & post & pre' & -> & Hpre & Hr & ->).
      exists [], (pre ++ r :: post), rest, [], pre, r, post, pre'.
      repeat split; [constructor|done..].
    + destruct (populateNamespacedField IsNamespaced rest) as [rest' err'] eqn:Hrest.
      simplify_eq. specialize (IH _ _ eq_refl). destruct err as [[file e]|].
      * destruct IH as (before & resources & after & before' & pre & r & post & pre'
                        & -> & Hbefore & -> & Hpre & Hr & ->).
        exists ((name, rs) :: before), (pre ++ r :: post), after,
          ((name, rs') :: before'), pre, r, post, pre'.
        repeat split; [|done..]. by constructor.
      * by constructor.
Qed.
End DiscoveryProofs.

Lemma populateNamespacedField_outcome_witness :
  ∃ r', [("a.yaml", [r'])] = (populateNamespacedField sample_IsNamespaced
                                [("a.yaml", [set_namespaced clusterrole_cr true])]).1
        ∧ namespaced r' = false.
Proof.
  destruct (populateNamespacedField sample_IsNamespaced
              [("a.yaml", [set_namespaced clusterrole_cr true])])
    as [files' err] eqn:Hrun.
  assert (err = None) as -> by (vm_compute in Hrun; congruence).
  pose proof (populateNamespacedField_outcome sample_IsNamespaced _ _ _ Hrun) as H.
  apply Forall2_cons_inv_l in H as ([n rs'] & rest' & [Hn Hrs] & Hrest & ->).
  apply Forall2_nil_inv_l in Hrest as ->. simpl in Hn, Hrs. subst n.
  apply Forall2_cons_inv_l in Hrs as (r' & rs'' & (b & Hb & ->) & Hnil & ->).
  apply Forall2_nil_inv_l in Hnil as ->.
  eexists. split; [reflexivity|]. vm_compute in Hb. by injection Hb as <-.
Defined.

(** ** What every decoded resource looks like *)

Lemma numbered_from_number input format0 i docs :
  numbered_from input format0 i (number input format0 i docs).
Proof.
  intros k r Hk.
  destruct (docs !! k) as [doc|] eqn:Hdoc.
  - rewrite (number_lookup _ _ _ _ _ _ Hdoc) in Hk. by simplify_eq.
  - apply lookup_ge_None in Hdoc.
    assert (is_Some (number input format0 i docs !! k)) as Hs by (by rewrite Hk).
    apply lookup_lt_is_Some in Hs. rewrite length_number in Hs. lia.
Qed.

Lemma numbered_from_app input format0 i l1 l2 :
  numbered_from input format0 i l1 →
  numbered_from input format0 (i + Z.of_nat (length l1)) l2 →
  numbered_from input format0 i (l1 ++ l2).
Proof.
  intros H1 H2 k r Hk. apply lookup_app_Some in Hk as [Hk|[Hlen Hk]].
  - by apply H1.
  - specialize (H2 _ _ Hk).
    replace (i + Z.of_nat k)%Z
      with (i + Z.of_nat (length l1) + Z.of_nat (k - length l1))%Z by lia.
    done.
Qed.

Section LoopInvariant.
Variable expandLists : bool.
Variable input : string.
Variable decode : decoder.
Variable encode : encoder.
Variable format0 : formatT.

(** The loop only ever appends: what it returns without error is what it
    held, followed by resources numbered from the index it started from;
    with expand-lists off, each of them carries apiVersion and kind.  What it
    returns with an error is no resource at all, and the error is not
    [io.EOF]. *)
Lemma decodeLoop_invariant fuel r i resources result err :
  decodeLoop expandLists input decode encode format0 fuel r i resources
  = Some (result, err) →
  match err with
  | None =>
      ∃ new, result = resources ++ new
             ∧ numbered_from input format0 i new
             ∧ (expandLists = false → Forall has_type_meta new)
  | Some e => result = [] ∧ e ≠ EOF
  end.
Proof.
  revert r i resources. induction fuel as [|fuel IH]; intros r i resources; [done|].
  cbn [decodeLoop].
  destruct (decode r emptyU) as [[r' u] [bytes derr]].
  destruct (is_EOF derr) eqn:Heof.
  { intros Hrun. simplify_eq. exists []. rewrite app_nil_r.
    split; [done|]. split; [by intros k x Hk|by constructor]. }
  destruct derr as [e|].
  { intros Hrun. simplify_eq. split; [done|]. intros ->. done. }
  destruct (bool_decide (GetAPIVersion u = "") || bool_decide (GetKind u = ""))
    eqn:Hskip.
  { apply IH. }
  apply orb_false_iff in Hskip as [Hv Hk].
  apply bool_decide_eq_false in Hv, Hk.
  destruct (expandLists && IsList u) eqn:Hexp.
  - pose proof (eachListItem_expand_spec input encode format0 (items_of u) i resources)
      as Hspec.
    destruct (eachListItem_expand _ _ _ _ _ _) as [[rs' i'] err']. simpl in Hspec.
    injection Hspec as -> ->. intros Hrun. specialize (IH _ _ _ Hrun).
    destruct err as [e|]; [done|].
    destruct IH as (new & -> & Hnum & Hmeta).
    eexists. rewrite <- app_assoc. split; [done|]. split.
    + apply numbered_from_app; [apply numbered_from_number|].
      by rewrite length_number.
    + intros ->. done.
  - intros Hrun. specialize (IH _ _ _ Hrun).
    destruct err as [e|]; [done|].
    destruct IH as (new & -> & Hnum & Hmeta).
    eexists. rewrite <- app_assoc. split; [done|]. split.
    + apply (numbered_from_app _ _ _ [_]); [|done].
      intros [|k] x Hx; simplify_eq/=. by rewrite Z.add_0_r.
    + intros He. apply Forall_cons. split; [done|by apply Hmeta].
Qed.
End LoopInvariant.

(** Whatever the stream, the parsers and the printers:
    [decodeResourceManifest] returns either resources and no error, or an
    error and no resource.  The resources are numbered 0, 1, 2, ... in the
    order of the result, each carries the input file name, the format the
    sniff chose, and [namespaced] and [listNamespaceName] at their zero
    values; with expand-lists off each carries apiVersion and kind.  The
    error is never [io.EOF]. *)
Theorem decodeResourceManifest_shape
    (yaml_Unmarshal json_Unmarshal : list byte → result Unstructured)
    (yaml_Marshal json_Marshal : Unstructured → result (list byte))
    (expandLists : bool) (input : string) (r : reader) :
  ∃ resources err,
    decodeResourceManifest yaml_Unmarshal json_Unmarshal yaml_Marshal json_Marshal
      expandLists input r = Some (resources, err)
    ∧ match err with
      | None =>
          (∀ k x, resources !! k = Some x →
             fresh_resource input (if isJSON r then jsonFormat else yamlFormat)
               (Z.of_nat k) x)
          ∧ (expandLists = false → Forall has_type_meta resources)
      | Some e => resources = [] ∧ e ≠ EOF
      end.
Proof.
  destruct (decodeResourceManifest_total yaml_Unmarshal json_Unmarshal yaml_Marshal
              json_Marshal expandLists input r) as [[resources err] Hrun].
  exists resources, err. split; [done|].
  unfold decodeResourceManifest in Hrun.
  destruct (isJSON r); cbn [negb] in Hrun;
    apply decodeLoop_invariant in Hrun;
    (destruct err as [e|]; [done|]);
    destruct Hrun as (new & -> & Hnum & Hmeta); simpl; split; done.
Qed.

(** ** JSON streams *)

Section JSONStream.
Variable yaml_Unmarshal json_Unmarshal : list byte → result Unstructured.
Variable yaml_Marshal json_Marshal : Unstructured → result (list byte).
Variable expandLists : bool.

Lemma drain_error chunks content e :
  drain chunks = (content, Some e) → ∃ msg, e = ErrExternal msg.
Proof.
  revert content. induction chunks as [|[bytes|msg] rest IH]; intros content; simpl.
  - done.
  - destruct (drain rest) as [more err]. intros H. simplify_eq. by eapply IH.
  - intros H. simplify_eq. by eexists.
Qed.

(** After one [DecodeJSON] nothing is left of the stream. *)
Lemma DecodeJSON_drains r into :
  pending (DecodeJSON json_Unmarshal r into).1.1 = [].
Proof.
  unfold DecodeJSON, ReadAll. destruct (drain (pending r)) as [data [e|]]; [done|].
  case_bool_decide; [done|]. by destruct (json_Unmarshal data).
Qed.

Lemma DecodeJSON_empty j into :
  DecodeJSON json_Unmarshal (mkReader j []) into
  = (mkReader j [], into, ([], Some EOF)).
Proof. reflexivity. Qed.

(** A JSON stream gives at most one document, which is the whole content of
    the stream.  An empty content gives no resource and no error; a content
    that does not parse gives the parser's error (were that error [io.EOF]
    itself, the loop would take it for the end of the stream and return
    nothing); a content that parses gives
    what the one document gives: nothing when it lacks apiVersion or kind,
    its items when it is a list under expand-lists, itself otherwise, with
    the content as its bytes.  A read that fails gives the error of the
    read. *)
Theorem decode_json_stream (input : string) (chunks : list chunk) :
  decodeResourceManifest yaml_Unmarshal json_Unmarshal yaml_Marshal json_Marshal
    expandLists input (mkReader true chunks)
  = Some
      match drain chunks with
      | (_, Some e) => ([], Some e)
      | (content, None) =>
          if bool_decide (length content = 0) then ([], None)
          else
            match json_Unmarshal content with
            | Err e => if is_EOF (Some e) then ([], None) else ([], Some e)
            | Ok u =>
                (number input jsonFormat 0
                   (if bool_decide (GetAPIVersion u = "") || bool_decide (GetKind u = "")
                    then []
                    else expand json_Marshal expandLists (content, u)),
                 None)
            end
      end.
Proof.
  unfold decodeResourceManifest. cbn [isJSON negb pending].
  cbn [decodeLoop]. unfold DecodeJSON at 1, ReadAll. cbn [pending isJSON].
  destruct (drain chunks) as [content [e|]] eqn:Hdrain.
  { by destruct (drain_error _ _ _ Hdrain) as [msg ->]. }
  case_bool_decide as Hlen; [done|].
  assert (∃ n, length chunks = S n) as [n Hn].
  { destruct chunks as [|c cs]; [|by eexists]. simpl in Hdrain. by simplify_eq. }
  rewrite Hn.
  destruct (json_Unmarshal content) as [u|e].
  - cbn [is_EOF].
    destruct (bool_decide (GetAPIVersion u = "") || bool_decide (GetKind u = "")).
    + cbn [decodeLoop]. by rewrite DecodeJSON_empty.
    + unfold expand. cbn [snd]. destruct (expandLists && IsList u).
      * pose proof (eachListItem_expand_spec input (EncodeJSON json_Marshal)
                      jsonFormat (items_of u) 0 []) as Hspec.
        destruct (eachListItem_expand _ _ _ _ _ _) as [[rs' i'] err'].
        simpl in Hspec. injection Hspec as -> ->.
        cbn [decodeLoop]. by rewrite DecodeJSON_empty.
      * cbn [decodeLoop]. by rewrite DecodeJSON_empty.
  - by destruct e.
Qed.
End JSONStream.

(** ** A YAML stream that breaks *)

Section YAMLFailure.
Variable yaml_Unmarshal json_Unmarshal : list byte → result Unstructured.
Variable yaml_Marshal json_Marshal : Unstructured → result (list byte).
Variable expandLists : bool.

(** The loop on documents that parse, followed by any rest of the stream,
    reaches the rest with the resources of the documents. *)
Lemma decodeLoop_yaml_prefix input docs tail :
  Forall (λ bytes, length bytes ≠ 0 → ∃ u, yaml_Unmarshal bytes = Ok u) docs →
  ∀ fuel i resources,
    decodeLoop expandLists input (DecodeYAML yaml_Unmarshal) (EncodeYAML yaml_Marshal)
      yamlFormat (length docs + fuel) (mkReader false ((Data <$> docs) ++ tail)) i resources
    = decodeLoop expandLists input (DecodeYAML yaml_Unmarshal) (EncodeYAML yaml_Marshal)
        yamlFormat fuel (mkReader false tail)
        (i + Z.of_nat (length (flat_map (expand yaml_Marshal expandLists)
                                 (omap (document_pair yaml_Unmarshal) docs))))
        (resources
           ++ number input yamlFormat i
                (flat_map (expand yaml_Marshal expandLists)
                   (omap (document_pair yaml_Unmarshal) docs))).
Proof.
  induction 1 as [|bytes docs Hparse _ IH]; intros fuel i resources.
  - simpl. by rewrite app_nil_r, Z.add_0_r.
  - cbn [length Nat.add fmap list_fmap app decodeLoop].
    change (mkReader false (Data bytes :: (Data <$> docs) ++ tail))
      with (mkReader false (Data bytes :: ((Data <$> docs) ++ tail))).
    unfold DecodeYAML at 1, YAMLReader_Read. cbn [pending isJSON andb negb is_EOF].
    rewrite (bool_decide_false (None ≠ None)) by (by intros ?). cbn [andb].
    cbn [omap list_omap].
    destruct (decide (length bytes = 0)) as [Hlen|Hlen].
    + assert (document_pair yaml_Unmarshal bytes = None) as ->.
      { unfold document_pair. by rewrite bool_decide_true. }
      rewrite (bool_decide_false (length bytes ≠ 0)) by (by intros ?).
      cbn [is_EOF].
      replace (bool_decide (GetAPIVersion emptyU = "")) with true by done.
      cbn [orb]. apply IH.
    + rewrite (bool_decide_true (length bytes ≠ 0)) by done.
      destruct (Hparse Hlen) as [u Hu]. rewrite Hu. cbn [is_EOF].
      destruct (bool_decide (GetAPIVersion u = "") || bool_decide (GetKind u = ""))
        eqn:Hskip.
      * assert (document_pair yaml_Unmarshal bytes = None) as ->.
        { unfold document_pair. by rewrite bool_decide_false, Hu, Hskip. }
        apply IH.
      * assert (document_pair yaml_Unmarshal bytes = Some (bytes, u)) as ->.
        { unfold document_pair. by rewrite bool_decide_false, Hu, Hskip. }
        cbn [flat_map]. unfold expand at 1 3. cbn [snd].
        destruct (expandLists && IsList u).
        -- pose proof (eachListItem_expand_spec input (EncodeYAML yaml_Marshal)
                         yamlFormat (items_of u) i resources) as Hspec.
           destruct (eachListItem_expand _ _ _ _ _ _) as [[rs' i'] err'].
           simpl in Hspec. injection Hspec as -> ->.
           rewrite IH, number_app, length_app, app_assoc. unfold EncodeYAML.
           f_equal. lia.
        -- rewrite IH. cbn [app number fst snd length].
           rewrite <- app_assoc. cbn [app]. f_equal. lia.
Qed.

(** A YAML stream breaks at its first document that cannot be read or does
    not parse: whatever the documents before it gave and whatever follows,
    [decodeResourceManifest] returns the error of that document and no
    resource. *)
Theorem decode_yaml_failure (input : string) (docs : list (list byte))
    (bad : chunk) (tail : list chunk) (e : error) :
  Forall (λ bytes, length bytes ≠ 0 → ∃ u, yaml_Unmarshal bytes = Ok u) docs →
  match bad with
  | Fail msg => e = ErrExternal msg
  | Data bytes => length bytes ≠ 0 ∧ yaml_Unmarshal bytes = Err e ∧ e ≠ EOF
  end →
  decodeResourceManifest yaml_Unmarshal json_Unmarshal yaml_Marshal json_Marshal
    expandLists input (mkReader false ((Data <$> docs) ++ bad :: tail))
  = Some ([], Some e).
Proof.
  intros Hdocs Hbad. unfold decodeResourceManifest. cbn [isJSON negb pending].
  rewrite length_app, length_fmap. cbn [length].
  replace (S (length docs + S (length tail)))
    with (length docs + S (S (length tail))) by lia.
  rewrite decodeLoop_yaml_prefix by done.
  cbn [decodeLoop]. unfold DecodeYAML, YAMLReader_Read. cbn [pending isJSON].
  destruct bad as [bytes|msg].
  - destruct Hbad as (Hlen & Hu & He).
    rewrite (bool_decide_false (None ≠ None)) by (by intros ?). cbn [andb].
    rewrite (bool_decide_true (length bytes ≠ 0)) by done. rewrite Hu.
    by destruct e.
  - subst e. by rewrite (bool_decide_true (Some (ErrExternal msg) ≠ None)).
Qed.
End YAMLFailure.

Lemma decode_yaml_failure_witness :
  decodeResourceManifest (unmarshal_table table_a) (unmarshal_table table_a)
    marshal_any marshal_any true "a.yaml"
    (mkReader false ((Data <$> docs_a)
                       ++ Data (String.list_byte_of_string "kind: [") :: []))
  = Some ([], Some (ErrExternal "yaml: cannot unmarshal")).
Proof.
  apply (decode_yaml_failure (unmarshal_table table_a) (unmarshal_table table_a)
           marshal_any marshal_any true "a.yaml" docs_a).
  - unfold docs_a.
    apply Forall_cons_2; [intros _; eexists; vm_compute; reflexivity|].
    apply Forall_cons_2; [intros Hlen; by destruct Hlen|].
    apply Forall_cons_2; [intros _; eexists; vm_compute; reflexivity|].
    apply Forall_cons_2; [intros _; eexists; vm_compute; reflexivity|].
    apply Forall_nil_2.
  - split; [vm_compute; discriminate|]. split; [vm_compute; reflexivity|discriminate].
Defined.

(** ** The expansion of one list *)

(** The callback of lines 324-339 appends one resource per item, in the
    order of the items and with consecutive indices, up to the first item
    that is not a map or that the encoder refuses; what it has appended by
    then stays.  [EachListItem] returns no error exactly when every item is
    a map that the encoder accepts, and then there is one resource per
    item. *)
Theorem eachListItem_expand_outcome (input : string) (encode : encoder)
    (format0 : formatT) (items : list value) (i : Z) (resources : list resource) :
  (eachListItem_expand input encode format0 items i resources).1
  = (resources ++ number input format0 i (encoded_items encode items),
     (i + Z.of_nat (length (encoded_items encode items)))%Z)
  ∧ length (encoded_items encode items) ≤ length items
  ∧ ((eachListItem_expand input encode format0 items i resources).2 = None
       ↔ Forall (λ item, ∃ child data, item = VObj child ∧ encode (mkU child) = Ok data)
           items)
  ∧ ((eachListItem_expand input encode format0 items i resources).2 = None →
     length (encoded_items encode items) = length items).
Proof.
  split; [apply eachListItem_expand_spec|].
  revert i resources. induction items as [|item rest IH]; intros i resources.
  { simpl. repeat split; [lia|done..]. }
  destruct item as [|b0|z0|s0|its0|child];
    try (simpl; split; [lia|]; split; [|done]; split; [done|];
         intros H; apply Forall_cons in H as [(c & d & ? & _) _]; discriminate).
  cbn [eachListItem_expand encoded_items].
  destruct (encode (mkU child)) as [bytes|e] eqn:He.
  - destruct (IH (i + 1)%Z (resources ++ [mkResource i input bytes format0 (mkU child) false ""]))
      as (Hle & Hiff & Hlen).
    cbn [length]. split; [lia|]. split.
    + rewrite Hiff. split.
      * intros H. apply Forall_cons. split; [by exists child, bytes|done].
      * intros H. by apply Forall_cons in H as [_ H].
    + intros H. by rewrite (Hlen H).
  - simpl. split; [lia|]. split; [|done]. split; [done|].
    intros H. apply Forall_cons in H as [(c & d & Hc & Hd) _]. simplify_eq.
    congruence.
Qed.

(** ** Where a validated resource is written *)

Section Directories.
Variable Join : list string → string.
Variable outputDir : string.

(** A resource that has passed validation and is neither a list, nor a v1
    Namespace, nor the Repo object, goes by its scope: when namespace-scoped,
    it declares a namespace and is written under "namespaces/<namespace>";
    when not, it is written under "cluster", whatever namespace it declared
    before validation.  A v1 Namespace that is not a list goes under
    "namespaces/<name>" for its own name. *)
Theorem validated_directory (r0 r : resource) :
  validateResource r0 = (r, None) → IsList (obj r0) = false →
  (isNamespaceObject (obj r0) = false → isRepoObject (obj r0) = false →
     if namespaced r0
     then GetNamespace (obj r0) ≠ ""
          ∧ dir_of Join outputDir (bucket r) r
            = Join [outputDir; "namespaces"; GetNamespace (obj r0)]
     else dir_of Join outputDir (bucket r) r = Join [outputDir; "cluster"])
  ∧ (isNamespaceObject (obj r0) = true → GetName (obj r0) ≠ "" →
     dir_of Join outputDir (bucket r) r
     = Join [outputDir; "namespaces"; GetName (obj r0)]
     ∧ resourceFilename r = "namespace." +:+ format_string (format r0)).
Proof.
  intros Hval Hl.
  pose proof (validateNonList_keeps r0) as (Hf & (Hk & Ha & Hn & Hil) & _).
  rewrite <- validateResource_nonlist in Hf, Hk, Ha, Hn, Hil by done.
  rewrite Hval in Hf, Hk, Ha, Hn, Hil. simpl in *.
  assert (isNamespaceObject (obj r) = isNamespaceObject (obj r0)) as HN
    by (unfold isNamespaceObject; by rewrite Hk, Ha).
  assert (isRepoObject (obj r) = isRepoObject (obj r0)) as HR
    by (unfold isRepoObject; by rewrite Hk, Ha).
  rewrite validateResource_nonlist in Hval by done.
  split.
  - intros Hns Hrepo. unfold dir_of, dirname_of, bucket.
    rewrite HR, Hrepo, HN, Hns, Hil, Hl.
    unfold validateNonList in Hval. destruct (namespaced r0); simpl in Hval.
    + case_bool_decide as Hempty; simpl in Hval; simplify_eq.
      split; [done|]. by rewrite decide_False.
    + case_bool_decide as Hempty; simpl in Hval; simplify_eq.
      * rewrite Hempty. by rewrite decide_True.
      * simpl. rewrite GetNamespace_cleared. by rewrite decide_True.
  - intros Hns Hname. unfold dir_of, dirname_of, bucket, resourceFilename.
    rewrite HN, Hns, Hil, Hl, Hn. destruct Hf as (_ & _ & _ & -> & _).
    assert (isRepoObject (obj r) = false) as ->.
    { rewrite HR. unfold isNamespaceObject in Hns. unfold isRepoObject.
      apply andb_true_iff in Hns as [Hkind _]. apply bool_decide_eq_true in Hkind.
      rewrite Hkind. done. }
    by rewrite decide_False.
Qed.
End Directories.

Lemma validated_directory_witness :
  dir_of (String.concat "/") "config"
    (bucket (validateResource clusterrole_cr).1) (validateResource clusterrole_cr).1
  = "config/cluster".
Proof.
  destruct (validated_directory (String.concat "/") "config" clusterrole_cr
              (validateResource clusterrole_cr).1) as [H _].
  - vm_compute. reflexivity.
  - reflexivity.
  - apply H; reflexivity.
Defined.

(** ** The grouping and the number of writes *)

Section Grouping.
Variable Join : list string → string.
Variable outputDir : string.

Lemma writes_gather_resource outputs r :
  length (writes Join outputDir (gather_resource outputs r))
  = S (length (writes Join outputDir outputs)).
Proof.
  unfold writes, gather_resource.
  destruct (outputs !! bucket r) as [list|] eqn:Hl; simpl.
  - rewrite <- insert_delete_eq.
    rewrite map_to_list_insert by apply lookup_delete_eq.
    rewrite <- (map_to_list_delete outputs (bucket r) list Hl).
    cbn [flat_map fst snd]. rewrite !length_app, !length_map, length_app.
    simpl. lia.
  - rewrite map_to_list_insert by done. cbn [flat_map]. by rewrite length_app.
Qed.

(** The first loop of [main] sorts the resources into their buckets and
    loses none: the entry of a key is the list of the resources of that
    bucket, in the order of the visit; a key is in the map only if some
    resource has it as its bucket, so no entry is empty; and the second loop
    calls [ioutil.WriteFile] once for every resource of the catalog. *)
Theorem gather_partition (files : catalog) :
  (∀ ns, default [] (gather files !! ns)
         = filter (λ r, bucket r = ns) (flat_map snd files))
  ∧ (∀ ns, is_Some (gather files !! ns)
           ↔ ∃ r, r ∈ flat_map snd files ∧ bucket r = ns)
  ∧ (∀ ns list, gather files !! ns = Some list → list ≠ [])
  ∧ length (writes Join outputDir (gather files)) = length (flat_map snd files).
Proof.
  assert (∀ ns, default [] (gather files !! ns)
                = filter (λ r, bucket r = ns) (flat_map snd files)) as Hlookup.
  { intros ns. rewrite gather_flat, foldl_gather_lookup. by rewrite lookup_empty. }
  assert (∀ ns, is_Some (gather files !! ns)
                ↔ ∃ r, r ∈ flat_map snd files ∧ bucket r = ns) as Hsome.
  { intros ns. rewrite gather_flat, foldl_gather_is_Some, lookup_empty.
    split; [intros [[? ?]|?]; done|by right]. }
  split; [done|]. split; [done|]. split.
  - intros ns list Hl ->.
    destruct (proj1 (Hsome ns)) as (r & Hr & Hb); [by rewrite Hl|].
    specialize (Hlookup ns). rewrite Hl in Hlookup. simpl in Hlookup.
    assert (r ∈ filter (λ r, bucket r = ns) (flat_map snd files)) as Hin
      by (by apply list_elem_of_filter).
    rewrite <- Hlookup in Hin. by apply elem_of_nil in Hin.
  - rewrite gather_flat.
    assert (∀ rs outputs,
              length (writes Join outputDir (foldl gather_resource outputs rs))
              = length (writes Join outputDir outputs) + length rs) as Hcount.
    { induction rs as [|r rs IH]; intros outputs; simpl; [lia|].
      rewrite IH, writes_gather_resource. lia. }
    rewrite Hcount. unfold writes. by rewrite map_to_list_empty.
Qed.
End Grouping.

(** ** From the decoded catalog to the writes *)

Lemma validateResource_data r : data (validateResource r).1 = data r.
Proof.
  rewrite validateResource_eq. destruct (IsList (obj r)) eqn:Hl.
  - by destruct (validateResourceList_keeps r Hl) as ((_ & _ & ? & _) & _).
  - by destruct (validateNonList_keeps r) as ((_ & _ & ? & _) & _).
Qed.

Section Pipeline.
Variable IsNamespaced : GroupVersionKind → result bool.
Variable Join : list string → string.
Variable outputDir : string.

Lemma populateResources_elem resources resources' r0 :
  populateResources IsNamespaced resources = (resources', None) →
  r0 ∈ resources →
  ∃ b, IsNamespaced (GroupVersionKindOf (obj r0)) = Ok b
       ∧ set_namespaced r0 b ∈ resources'.
Proof.
  revert resources'. induction resources as [|r rest IH]; intros resources' Hrun Hin.
  { by apply elem_of_nil in Hin. }
  simpl in Hrun.
  destruct (IsNamespaced (GroupVersionKindOf (obj r))) as [b|e] eqn:Hr; [|done].
  destruct (populateResources IsNamespaced rest) as [rest' err'] eqn:Hrest.
  simplify_eq. apply elem_of_cons in Hin as [->|Hin].
  - exists b. split; [done|left].
  - destruct (IH _ eq_refl Hin) as (b' & Hb' & Hin'). exists b'. split; [done|by right].
Qed.

Lemma populateNamespacedField_elem files files' name resources r0 :
  populateNamespacedField IsNamespaced files = (files', None) →
  (name, resources) ∈ files → r0 ∈ resources →
  ∃ b resources', IsNamespaced (GroupVersionKindOf (obj r0)) = Ok b
                  ∧ (name, resources') ∈ files'
                  ∧ set_namespaced r0 b ∈ resources'.
Proof.
  revert files'. induction files as [|[n rs] rest IH]; intros files' Hrun Hf Hr.
  { by apply elem_of_nil in Hf. }
  simpl in Hrun.
  destruct (populateResources IsNamespaced rs) as [rs' [e|]] eqn:Hrs; [done|].
  destruct (populateNamespacedField IsNamespaced rest) as [rest' err'] eqn:Hrest.
  simplify_eq. apply elem_of_cons in Hf as [Heq|Hf].
  - simplify_eq. destruct (populateResources_elem _ _ _ Hrs Hr) as (b & Hb & Hin).
    exists b, rs'. split; [done|]. split; [left|done].
  - destruct (IH _ eq_refl Hf Hr) as (b & rs1 & Hb & Hin1 & Hin2).
    exists b, rs1. split; [done|]. split; [by right|done].
Qed.

(** The three phases of [main] after decoding, each visiting the files in an
    order of its own: when discovery and validation both pass, every
    resource of the decoded catalog is written once its scope is known and
    its validation has passed, to the directory and under the file name of
    its validated state, and the bytes written are the bytes it was decoded
    with: neither phase changes them, so a namespace that validation cleared
    in the object is still in the file. *)
Theorem pipeline_writes (files files1 files1' files2 files2' : catalog)
    (name : string) (resources : list resource) (r0 : resource) :
  populateNamespacedField IsNamespaced files = (files1, None) →
  files1 ≡ₚ files1' →
  validateResourceFiles files1' = (files2, None) →
  files2 ≡ₚ files2' →
  (name, resources) ∈ files → r0 ∈ resources →
  ∃ b r2,
    IsNamespaced (GroupVersionKindOf (obj r0)) = Ok b
    ∧ validateResource (set_namespaced r0 b) = (r2, None)
    ∧ (Join [dir_of Join outputDir (bucket r2) r2; resourceFilename r2], data r0)
        ∈ writes Join outputDir (gather files2').
Proof.
  intros Hpop Hperm1 Hval Hperm2 Hf Hr.
  destruct (populateNamespacedField_elem _ _ _ _ _ Hpop Hf Hr)
    as (b & rs1 & Hb & Hin1 & Hr1).
  rewrite Hperm1 in Hin1.
  assert ((validateFiles ∅ files1').2 = None) as Hpass
    by (unfold validateResourceFiles in Hval; by rewrite Hval).
  pose proof (validateFiles_result _ Hpass) as Hres.
  unfold validateResourceFiles in Hval. rewrite Hval in Hres. simpl in Hres.
  apply validateFiles_pass in Hpass. rewrite Forall_forall in Hpass.
  specialize (Hpass _ Hin1). simpl in Hpass. rewrite Forall_forall in Hpass.
  specialize (Hpass _ Hr1).
  destruct (validateResource (set_namespaced r0 b)) as [r2 err] eqn:Hr2.
  simpl in Hpass. subst err. exists b, r2. split; [done|]. split; [done|].
  assert ((name, (λ r, (validateResource r).1) <$> rs1) ∈ files2') as Hin2.
  { rewrite <- Hperm2, Hres.
    apply (list_elem_of_fmap_2
             (λ entry : string * list resource,
                (entry.1, (λ r, (validateResource r).1) <$> entry.2)) _ _ Hin1). }
  assert (r2 ∈ (λ r, (validateResource r).1) <$> rs1) as Hin3.
  { apply list_elem_of_fmap. exists (set_namespaced r0 b). by rewrite Hr2. }
  destruct (gather_elem _ _ _ _ Hin2 Hin3) as (list & Hl & Hin).
  replace (data r0) with (data r2).
  - unfold writes. apply list_elem_of_In, in_flat_map.
    exists (bucket r2, list). split.
    + apply list_elem_of_In. by apply elem_of_map_to_list.
    + apply in_map_iff. exists r2. split; [done|]. by apply list_elem_of_In.
  - pose proof (validateResource_data (set_namespaced r0 b)) as Hd.
    by rewrite Hr2 in Hd.
Qed.
End Pipeline.

Lemma pipeline_writes_witness :
  ∃ b r2,
    sample_IsNamespaced (GroupVersionKindOf (obj clusterrole_cr)) = Ok b
    ∧ validateResource (set_namespaced clusterrole_cr b) = (r2, None)
    ∧ (String.concat "/"
         [dir_of (String.concat "/") "config" (bucket r2) r2; resourceFilename r2],
       data clusterrole_cr)
        ∈ writes (String.concat "/") "config"
            (gather (validateResourceFiles
                       (populateNamespacedField sample_IsNamespaced two_files).1).1).
Proof.
  apply (pipeline_writes sample_IsNamespaced (String.concat "/") "config" two_files
           (populateNamespacedField sample_IsNamespaced two_files).1
           (populateNamespacedField sample_IsNamespaced two_files).1
           (validateResourceFiles
              (populateNamespacedField sample_IsNamespaced two_files).1).1
           (validateResourceFiles
              (populateNamespacedField sample_IsNamespaced two_files).1).1
           "b.yaml" [clusterrole_cr] clusterrole_cr).
  - vm_compute. reflexivity.
  - reflexivity.
  - vm_compute. reflexivity.
  - reflexivity.
  - right. left.
  - left.
Defined.

(** ** Validating a list again *)

Lemma eachListItem_validate_settled r items declared :
  namespaced r = false → declared ⊆ {[""]} →
  Forall (λ item, ∃ child, item = VObj child ∧ IsList (mkU child) = false
                           ∧ GetNamespace (mkU child) = "") items →
  eachListItem_validate validateResource r items declared "" = (items, "", None).
Proof.
  intros Hn. revert declared. induction items as [|item rest IH];
    intros declared Hd Hall; [done|].
  apply Forall_cons in Hall as [(child & -> & Hl & Hns) Hall].
  cbn [eachListItem_validate inner_of obj]. rewrite Hns.
  assert ({[""]} ∪ declared = ({[""]} : gset string)) as -> by set_solver.
  rewrite bool_decide_false by (rewrite size_singleton; lia).
  rewrite validateResource_nonlist by done.
  unfold validateNonList. cbn [inner_of namespaced obj]. rewrite Hn, Hns. simpl.
  by rewrite IH.
Qed.

Lemma validateNonList_settles r r' :
  namespaced r = false → IsList (obj r) = false →
  validateNonList r = (r', None) →
  IsList (obj r') = false ∧ GetNamespace (obj r') = "".
Proof.
  intros Hn Hl. unfold validateNonList. rewrite Hn. simpl.
  case_bool_decide as Hns; simpl; intros Hrun; simplify_eq; [done|].
  simpl. by rewrite IsList_cleared, GetNamespace_cleared.
Qed.

(** Validation of a list is not a no-op the second time.  For a list that is
    not namespace-scoped and whose items are not lists: once it has passed,
    its items declare no namespace any more, so a second [validateResource]
    passes too, changes nothing in the object, and sets [listNamespaceName]
    to the empty string, whatever the first validation had put there. *)
Theorem list_revalidation (r r' : resource) :
  IsList (obj r) = true → namespaced r = false →
  Forall (λ item, ∃ child, item = VObj child ∧ IsList (mkU child) = false)
    (items_of (obj r)) →
  validateResource r = (r', None) →
  validateResource r' = (set_listNamespaceName r' "", None).
Proof.
  intros Hl Hn Hitems Hrun. rewrite validateResource_list in Hrun by done.
  destruct (validateResourceList_success r r' Hl Hrun) as (items' & ns & Hloop & ->).
  assert (Forall (λ item, ∃ child, item = VObj child ∧ IsList (mkU child) = false
                                   ∧ GetNamespace (mkU child) = "") items') as Hsettled.
  { apply eachListItem_validate_items in Hloop.
    apply Forall_forall. intros item' Hin.
    apply list_elem_of_lookup in Hin as [k Hk].
    destruct (Forall2_lookup_r _ _ _ _ _ Hloop Hk)
      as (item & Hitem & child & inner' & -> & Hrec & ->).
    rewrite Forall_forall in Hitems.
    destruct (Hitems (VObj child)) as (c & Hc & Hcl);
      [apply list_elem_of_lookup; eauto|]. simplify_eq.
    rewrite validateResource_nonlist in Hrec by done.
    apply validateNonList_settles in Hrec as [H1 H2]; [|done..].
    eexists. split; [done|]. by rewrite mkU_Object. }
  rewrite validateResource_list
    by (cbn [obj set_obj set_listNamespaceName]; apply IsList_with_items).
  rewrite validateResourceList_run
    by (cbn [obj set_obj set_listNamespaceName]; apply IsList_with_items).
  cbn [obj set_obj set_listNamespaceName]. rewrite items_of_with_items.
  rewrite (eachListItem_validate_settled _ items' ∅) by done.
  f_equal. unfold set_listNamespaceName, set_obj. cbn. f_equal.
  rewrite <- (items_of_with_items (obj r) items') at 2.
  apply with_items_same, IsList_with_items.
Qed.

Lemma list_revalidation_witness :
  listNamespaceName (validateResource list_in_x).1 = "x"
  ∧ validateResource (validateResource list_in_x).1
    = (set_listNamespaceName (validateResource list_in_x).1 "", None).
Proof.
  split; [reflexivity|].
  apply (list_revalidation list_in_x).
  - reflexivity.
  - reflexivity.
  - repeat constructor; eexists; split; reflexivity.
  - vm_compute. reflexivity.
Defined.

(** ** The file name of a list *)

Lemma append_String c s t : String c s +:+ t = String c (s +:+ t).
Proof. reflexivity. Qed.

Lemma append_empty_r s : s +:+ "" = s.
Proof.
  induction s as [|c s IH]; [reflexivity|]. by rewrite append_String, IH.
Qed.

Lemma append_assoc' s1 s2 s3 : (s1 +:+ s2) +:+ s3 = s1 +:+ (s2 +:+ s3).
Proof.
  induction s1 as [|c s1 IH]; [reflexivity|]. by rewrite !append_String, IH.
Qed.

Lemma rev_app_append s acc : String.rev_app s acc = String.rev s +:+ acc.
Proof.
  unfold String.rev. revert acc. induction s as [|c s IH]; intros acc; [reflexivity|].
  cbn [String.rev_app]. rewrite (IH (String c acc)), (IH (String c "")).
  rewrite append_assoc'. reflexivity.
Qed.

Lemma rev_String c s : String.rev (String c s) = String.rev s +:+ String c "".
Proof. unfold String.rev at 1. cbn [String.rev_app]. apply rev_app_append. Qed.

Lemma rev_append s1 s2 : String.rev (s1 +:+ s2) = String.rev s2 +:+ String.rev s1.
Proof.
  induction s1 as [|c s1 IH].
  - change ("" +:+ s2) with s2. change (String.rev "") with "".
    by rewrite append_empty_r.
  - by rewrite append_String, !rev_String, IH, append_assoc'.
Qed.

Lemma rev_involutive s : String.rev (String.rev s) = s.
Proof.
  induction s as [|c s IH]; [reflexivity|].
  rewrite rev_String, rev_append, IH. reflexivity.
Qed.

Lemma strip_prefix_append p s : strip_prefix p (p +:+ s) = Some s.
Proof.
  induction p as [|c p IH]; [reflexivity|].
  rewrite append_String. cbn [strip_prefix]. by rewrite decide_True.
Qed.

Lemma count_slash_append s1 s2 :
  count_slash (s1 +:+ s2) = count_slash s1 + count_slash s2.
Proof.
  induction s1 as [|c s1 IH]; [reflexivity|].
  rewrite append_String. cbn [count_slash]. rewrite IH. lia.
Qed.

Lemma count_slash_rev s : count_slash (String.rev s) = count_slash s.
Proof.
  induction s as [|c s IH]; [reflexivity|].
  rewrite rev_String, count_slash_append, IH. cbn [count_slash]. lia.
Qed.

Lemma count_slash_before_slash s : count_slash (before_slash s) = 0.
Proof.
  induction s as [|c s IH]; [reflexivity|]. cbn [before_slash].
  destruct (decide (c = "/"%char)); [reflexivity|].
  cbn [count_slash]. by rewrite decide_False.
Qed.

(** What [filepath.Ext] returns is a suffix of the path: the scan has passed
    [acc] and holds the rest of the path, reversed, in [s]. *)
Lemma ext_scan_suffix s acc :
  ∃ s', String.rev s +:+ acc = String.rev s' +:+ ext_scan s acc.
Proof.
  revert acc. induction s as [|c s IH]; intros acc.
  - exists (String.rev acc). cbn [ext_scan].
    by rewrite rev_involutive, append_empty_r.
  - cbn [ext_scan]. destruct (isPathSeparator c).
    + exists (String.rev (String.rev (String c s) +:+ acc)).
      by rewrite append_empty_r, rev_involutive.
    + destruct (decide (c = "."%char)) as [->|Hc].
      * exists s. rewrite rev_String, append_assoc'. reflexivity.
      * destruct (IH (String c acc)) as [s' Hs']. exists s'.
        rewrite rev_String, append_assoc'. exact Hs'.
Qed.

Lemma TrimSuffix_Ext path : TrimSuffix path (Ext path) +:+ Ext path = path.
Proof.
  unfold Ext. destruct (ext_scan_suffix (String.rev path) "") as [s' Hs'].
  rewrite rev_involutive, append_empty_r in Hs'.
  unfold TrimSuffix. rewrite Hs' at 2. rewrite rev_append, strip_prefix_append.
  by rewrite rev_involutive.
Qed.

Lemma Base_no_separator path : Base path = "/" ∨ count_slash (Base path) = 0.
Proof.
  unfold Base. destruct (decide (path = "")); [by right|].
  destruct (decide (_ = "")); [by left|]. right.
  by rewrite count_slash_rev, count_slash_before_slash.
Qed.

(** The file of a list is named after the kind, the index and a stem; the
    stem is the base name of the input file without its last extension (the
    stem followed by [filepath.Ext] of the base name is the base name), and
    it holds no path separator, unless the input path is made of separators
    only. *)
Theorem list_filename_stem (r : resource) :
  IsList (obj r) = true →
  ∃ stem,
    resourceFilename r
    = GetKind (obj r) +:+ "-" +:+ decimal (idx r) +:+ "-" +:+ stem +:+ "."
        +:+ format_string (format r)
    ∧ stem +:+ Ext (Base (inputFilename r)) = Base (inputFilename r)
    ∧ (Base (inputFilename r) = "/" ∨ count_slash stem = 0).
Proof.
  intros Hl. unfold resourceFilename. rewrite Hl.
  exists (TrimSuffix (Base (inputFilename r)) (Ext (Base (inputFilename r)))).
  split; [done|]. split; [apply TrimSuffix_Ext|].
  destruct (Base_no_separator (inputFilename r)) as [?|Hc]; [by left|right].
  rewrite <- (TrimSuffix_Ext (Base (inputFilename r))) in Hc.
  rewrite count_slash_append in Hc. lia.
Qed.

Lemma list_filename_stem_witness :
  ∃ stem,
    resourceFilename (sample "manifests/b.tar.json" (list_manifest []) true)
    = "List-0-" +:+ stem +:+ ".yaml"
    ∧ stem +:+ ".json" = "b.tar.json".
Proof.
  destruct (list_filename_stem (sample "manifests/b.tar.json" (list_manifest []) true)
              eq_refl) as (stem & Hname & Hstem & _).
  exists stem. split; [exact Hname|exact Hstem].
Defined.

(** ** Reading the inputs *)

Section InputsProofs.
Variable os_Open : string → result reader.
Variable yaml_Unmarshal json_Unmarshal : list byte → result Unstructured.
Variable yaml_Marshal json_Marshal : Unstructured → result (list byte).
Variable expandLists : bool.

Let decoded (input : string) (resources : list resource) : Prop :=
  ∃ r, os_Open input = Ok r
       ∧ decodeResourceManifest yaml_Unmarshal json_Unmarshal yaml_Marshal
           json_Marshal expandLists input r = Some (resources, None).

Lemma decoded_inputFilename input r resources x :
  decodeResourceManifest yaml_Unmarshal json_Unmarshal yaml_Marshal
    json_Marshal expandLists input r = Some (resources, None) →
  x ∈ resources → inputFilename x = input.
Proof.
  intros Hrun Hx. unfold decodeResourceManifest in Hrun.
  apply list_elem_of_lookup in Hx as [k Hk].
  destruct (negb (isJSON r));
    apply decodeLoop_invariant in Hrun as (new & -> & Hnum & _);
    by destruct (Hnum k x Hk) as (_ & ? & _).
Qed.

Lemma readInputs_run inputs files :
  ∃ outcome,
    readInputs os_Open yaml_Unmarshal json_Unmarshal yaml_Marshal json_Marshal
      expandLists inputs files = Some outcome
    ∧ match outcome with
      | inl files' =>
          Forall (λ input, ∃ resources, decoded input resources) inputs
          ∧ dom files' = list_to_set inputs ∪ dom files
          ∧ (∀ input resources,
               files' !! input = Some resources →
               (input ∈ inputs ∧ decoded input resources)
               ∨ ((input ∉ inputs) ∧ files !! input = Some resources))
      | inr f =>
          ∃ pre input post,
            inputs = pre ++ input :: post
            ∧ Forall (λ input, ∃ resources, decoded input resources) pre
            ∧ ((∃ e, os_Open input = Err e ∧ f = FailedToRead input e)
               ∨ (∃ r resources e,
                    os_Open input = Ok r
                    ∧ decodeResourceManifest yaml_Unmarshal json_Unmarshal
                        yaml_Marshal json_Marshal expandLists input r
                      = Some (resources, Some e)
                    ∧ f = FailedToDecode input e))
      end.
Proof.
  revert files. induction inputs as [|input rest IH]; intros files.
  { eexists. split; [reflexivity|]. split; [constructor|].
    split; [set_solver|]. intros input resources Hl. right.
    split; [apply not_elem_of_nil|done]. }
  cbn [readInputs]. destruct (os_Open input) as [r|e] eqn:Hopen.
  2:{ eexists. split; [reflexivity|]. exists [], input, rest.
      split; [done|]. split; [constructor|]. left. by exists e. }
  destruct (decodeResourceManifest_total yaml_Unmarshal json_Unmarshal yaml_Marshal
              json_Marshal expandLists input r) as [[resources err] Hrun].
  rewrite Hrun. destruct err as [e|].
  { eexists. split; [reflexivity|]. exists [], input, rest.
    split; [done|]. split; [constructor|]. right. by exists r, resources, e. }
  destruct (IH (<[input := resources]> files)) as (outcome & Hrest & Hout).
  exists outcome. split; [done|].
  assert (decoded input resources) as Hdec by (by exists r).
  destruct outcome as [files'|f].
  - destruct Hout as (Hall & Hdom & Hlook). split; [constructor; eauto|].
    split; [rewrite Hdom, dom_insert_L; set_solver|].
    intros input' resources' Hl.
    destruct (Hlook _ _ Hl) as [[Hin Hd]|[Hnin Hins]].
    + left. split; [by right|done].
    + destruct (decide (input = input')) as [<-|Hne].
      * rewrite lookup_insert_eq in Hins. simplify_eq. left. split; [left|done].
      * rewrite lookup_insert_ne in Hins by done. right. split; [|done].
        intros Hin. apply elem_of_cons in Hin as [?|?]; done.
  - destruct Hout as (pre & bad & post & -> & Hpre & Hbad).
    exists (input :: pre), bad, post. split; [done|].
    split; [constructor; eauto|done].
Qed.

(** The first loop of [main] always ends.  It stops at the first input that
    cannot be opened or decoded, with the fatal error of that input; the
    inputs before it were all opened and decoded.  When no input fails, the
    catalog has one entry per distinct input path and nothing else, the entry
    of a path holds the resources decoded from its file, and every resource
    carries in [inputFilename] the key of its entry. *)
Theorem readInputs_outcome (inputs : list string) :
  ∃ outcome,
    readInputs os_Open yaml_Unmarshal json_Unmarshal yaml_Marshal json_Marshal
      expandLists inputs ∅ = Some outcome
    ∧ match outcome with
      | inl files =>
          dom files = list_to_set inputs
          ∧ (∀ input resources,
               files !! input = Some resources →
               input ∈ inputs
               ∧ (∃ r, os_Open input = Ok r
                       ∧ decodeResourceManifest yaml_Unmarshal json_Unmarshal
                           yaml_Marshal json_Marshal expandLists input r
                         = Some (resources, None))
               ∧ ∀ x, x ∈ resources → inputFilename x = input)
      | inr f =>
          ∃ pre input post,
            inputs = pre ++ input :: post
            ∧ Forall (λ input, ∃ r resources,
                        os_Open input = Ok r
                        ∧ decodeResourceManifest yaml_Unmarshal json_Unmarshal
                            yaml_Marshal json_Marshal expandLists input r
                          = Some (resources, None)) pre
            ∧ ((∃ e, os_Open input = Err e ∧ f = FailedToRead input e)
               ∨ (∃ r resources e,
                    os_Open input = Ok r
                    ∧ decodeResourceManifest yaml_Unmarshal json_Unmarshal
                        yaml_Marshal json_Marshal expandLists input r
                      = Some (resources, Some e)
                    ∧ f = FailedToDecode input e))
      end.
Proof.
  destruct (readInputs_run inputs ∅) as (outcome & Hrun & Hout).
  exists outcome. split; [done|]. destruct outcome as [files|f].
  - destruct Hout as (_ & Hdom & Hlook). split; [rewrite Hdom; set_solver|].
    intros input resources Hl.
    destruct (Hlook _ _ Hl) as [[Hin (r & Hopen & Hdec)]|[_ Hempty]];
      [|by rewrite lookup_empty in Hempty].
    split; [done|]. split; [by exists r|].
    intros x Hx. by eapply decoded_inputFilename.
  - destruct Hout as (pre & input & post & -> & Hpre & Hbad).
    exists pre, input, post. split; [done|]. split; [|done].
    eapply Forall_impl; [exact Hpre|].
    intros i (resources & r & Hopen & Hdec). by exists r, resources.
Qed.
End InputsProofs.
